(** * ECG annotation and digitization pipeline of [medical_app.py]

    A shallow embedding of the region store (rectangle list, undo/redo
    history, mouse event filter), of the coordinate conversion used when a
    region is cropped, of the background removal, of the two column-wise
    digitizers and of the file-name collision loops of the two export paths,
    followed by the properties of the specification settled against them.

    Conventions.  Python [float] values (scene coordinates, amplitudes,
    times, means) are rationals [Q]; Python [int] values are [Z]; 8-bit
    channels are [Z] in [0, 255].  The float operations of the coordinate
    conversion and of the display size round their exact result to the
    nearest binary64 number ([round_float]); elsewhere float arithmetic is
    idealised as exact.  An uncaught Python exception is [None] in the
    [option] monad. *)

From Stdlib Require Import ZArith QArith Qround Qabs Qpower Qreduction.
From Stdlib Require Import List Sorted String Ascii Bool.
From Stdlib Require Import FinFun Lia Lqa.
From Stdlib Require Import DecimalString DecimalNat.
Import ListNotations.

Set Implicit Arguments.

Local Open Scope Z_scope.

(** ** A small exception monad *)

Definition bind {A B : Type} (m : option A) (k : A -> option B) : option B :=
  match m with
  | Some a => k a
  | None => None
  end.

Notation "x <- m ;; k" := (bind m (fun x => k))
  (at level 61, m at next level, right associativity).

(** ** Python list primitives used by the source *)

Module PyList.

Section Prims.
Context {A : Type}.

Definition len (l : list A) : Z := Z.of_nat (List.length l).

(** [l[i]]: negative indices count from the end, anything out of range
    raises [IndexError]. *)
Definition getitem (l : list A) (i : Z) : option A :=
  if 0 <=? i then nth_error l (Z.to_nat i)
  else if 0 <=? len l + i then nth_error l (Z.to_nat (len l + i))
  else None.

(** Normalisation of a slice bound: negative bounds are taken from the
    end, and the result is clamped to [0, len l]. *)
Definition slice_bound (l : list A) (i : Z) : nat :=
  Z.to_nat (Z.min (len l) (if i <? 0 then Z.max 0 (len l + i) else i)).

(** [l[a:b]] *)
Definition slice (l : list A) (a b : Z) : list A :=
  let a' := slice_bound l a in
  let b' := slice_bound l b in
  firstn (b' - a') (skipn a' l).

(** [l[:b]] *)
Definition slice_to (l : list A) (b : Z) : list A :=
  firstn (slice_bound l b) l.

Variable eqb : A -> A -> bool.

(** [x in l] *)
Definition contains (x : A) (l : list A) : bool := existsb (eqb x) l.

(** [l.remove(x)]: drops the first item equal to [x]; [ValueError] when
    there is none. *)
Fixpoint remove (x : A) (l : list A) : option (list A) :=
  match l with
  | [] => None
  | y :: t => if eqb y x then Some t
              else t' <- remove x t ;; Some (y :: t')
  end.
End Prims.

End PyList.

(** ** Regions and the session state *)

Record QPointF := mkPoint { pt_x : Q; pt_y : Q }.

(** A rectangle is the 5-tuple [(x1, y1, x2, y2, name)] of the source. *)
Record Rect := mkRect
  { r_x1 : Q; r_y1 : Q; r_x2 : Q; r_y2 : Q; r_name : string }.

(** Tuple equality of Python: numeric equality on the coordinates, string
    equality on the name. *)
Definition rect_eqb (a b : Rect) : bool :=
  Qeq_bool (r_x1 a) (r_x1 b) && Qeq_bool (r_y1 a) (r_y1 b) &&
  Qeq_bool (r_x2 a) (r_x2 b) && Qeq_bool (r_y2 a) (r_y2 b) &&
  String.eqb (r_name a) (r_name b).

(** [QRectF(start, end).normalized()] followed by the tuple the release
    handler builds from it: [(x, y, x + width, y + height, name)]. *)
Record QRectF := mkQRectF { q_x : Q; q_y : Q; q_w : Q; q_h : Q }.

Definition QRectF_of_points (p1 p2 : QPointF) : QRectF :=
  mkQRectF (pt_x p1) (pt_y p1) (pt_x p2 - pt_x p1)%Q (pt_y p2 - pt_y p1)%Q.

Definition normalized (r : QRectF) : QRectF :=
  let '(x, w) := if Qle_bool 0 (q_w r) then (q_x r, q_w r)
                 else ((q_x r + q_w r)%Q, (- q_w r)%Q) in
  let '(y, h) := if Qle_bool 0 (q_h r) then (q_y r, q_h r)
                 else ((q_y r + q_h r)%Q, (- q_h r)%Q) in
  mkQRectF x y w h.

Definition rect_tuple (r : QRectF) (name : string) : Rect :=
  mkRect (q_x r) (q_y r) (q_x r + q_w r)%Q (q_y r + q_h r)%Q name.

(** The module-level globals and the drawing attributes of
    [ECGAnalysisPage] that the store operations read or write. *)
Record State := mkState
  { rectangles : list Rect;
    selected_rectangle : option Rect;
    image_loaded : bool;
    rectangle_history : list (list Rect);
    current_history_index : Z;
    start_pos : option QPointF;
    current_rect : bool;        (* a rubber-band scene item is held *)
    drawing : bool }.

Definition set_rectangles (s : State) (rs : list Rect) : State :=
  mkState rs (selected_rectangle s) (image_loaded s) (rectangle_history s)
          (current_history_index s) (start_pos s) (current_rect s) (drawing s).

(** Globals as the module body leaves them. *)
Definition module_globals : State :=
  mkState [] None false [] (-1) None false false.

(** [ECGAnalysisPage.__init__]: both branches of the conditional
    expression yield a copy of [rectangles]. *)
Definition init_page (s : State) : State :=
  mkState (rectangles s) (selected_rectangle s) (image_loaded s)
          [if match rectangles s with [] => true | _ => false end
           then [] else rectangles s]
          0 None false false.

Definition initial_state : State := init_page module_globals.

(** [open_image], as far as the store is concerned: a successful load sets
    [image_loaded]; the rectangles are not touched. *)
Definition open_image (loaded_ok : bool) (s : State) : State :=
  if loaded_ok
  then mkState (rectangles s) (selected_rectangle s) true
               (rectangle_history s) (current_history_index s)
               (start_pos s) (current_rect s) (drawing s)
  else s.

(** ** History *)

Definition add_to_history (s : State) : State :=
  let h := PyList.slice_to (rectangle_history s) (current_history_index s + 1)
           ++ [rectangles s] in
  mkState (rectangles s) (selected_rectangle s) (image_loaded s)
          h (PyList.len h - 1) (start_pos s) (current_rect s) (drawing s).

Definition goto_snapshot (s : State) (i : Z) : option State :=
  snap <- PyList.getitem (rectangle_history s) i ;;
  Some (mkState snap (selected_rectangle s) (image_loaded s)
                (rectangle_history s) i (start_pos s) (current_rect s)
                (drawing s)).

Definition undo_action (s : State) : option State :=
  if 0 <? current_history_index s
  then goto_snapshot s (current_history_index s - 1)
  else Some s.

Definition redo_action (s : State) : option State :=
  if current_history_index s <? PyList.len (rectangle_history s) - 1
  then goto_snapshot s (current_history_index s + 1)
  else Some s.

(** ** Deletion through the side-panel button *)

Definition delete_selected (s : State) : option State :=
  match selected_rectangle s with
  | Some sel =>
      if PyList.contains rect_eqb sel (rectangles s)
      then rs <- PyList.remove rect_eqb sel (rectangles s) ;;
           Some (mkState rs None (image_loaded s) (rectangle_history s)
                         (current_history_index s) (start_pos s)
                         (current_rect s) (drawing s))
      else Some s
  | None => Some s
  end.

(** ** The mouse event filter *)

(** Left-button events on the viewport.  The release carries the outcome of
    the name dialog: [None] when it was rejected, [Some v] when it was
    accepted with line-edit text [v]. *)
Inductive Event :=
| MouseButtonPress (pos : QPointF)
| MouseMove (pos : QPointF)
| MouseButtonRelease (pos : QPointF) (dialog : option string).

(** [x1 <= scene_pos.x() <= x2 and y1 <= scene_pos.y() <= y2] *)
Definition hit (p : QPointF) (r : Rect) : bool :=
  Qle_bool (r_x1 r) (pt_x p) && Qle_bool (pt_x p) (r_x2 r) &&
  Qle_bool (r_y1 r) (pt_y p) && Qle_bool (pt_y p) (r_y2 r).

(** The rectangle the [for] loop of the press handler stops at. *)
Definition clicked_rectangle (p : QPointF) (rs : list Rect) : option Rect :=
  find (hit p) rs.

(** [rectangles.append(r); self.add_to_history()] *)
Definition add_region (r : Rect) (s : State) : State :=
  add_to_history (set_rectangles s (rectangles s ++ [r])).

Definition end_gesture (s : State) : State :=
  mkState (rectangles s) (selected_rectangle s) (image_loaded s)
          (rectangle_history s) (current_history_index s) None false
          (drawing s).

Definition eventFilter (s : State) (e : Event) : option State :=
  if image_loaded s then
    match e with
    | MouseButtonPress p =>
        match clicked_rectangle p (rectangles s) with
        | Some rect =>
            rs <- PyList.remove rect_eqb rect (rectangles s) ;;
            Some (add_to_history (set_rectangles s rs))
        | None =>
            Some (mkState (rectangles s) (selected_rectangle s)
                          (image_loaded s) (rectangle_history s)
                          (current_history_index s) (Some p) true true)
        end
    | MouseMove _ => Some s
    | MouseButtonRelease p dialog =>
        if drawing s then
          let s1 := mkState (rectangles s) (selected_rectangle s)
                            (image_loaded s) (rectangle_history s)
                            (current_history_index s) (start_pos s)
                            (current_rect s) false in
          if current_rect s1 then
            sp <- start_pos s1 ;;
            let rect := normalized (QRectF_of_points sp p) in
            match dialog with
            | Some name =>
                if (name =? EmptyString)%string then Some (end_gesture s1)
                else Some (end_gesture (add_region (rect_tuple rect name) s1))
            | None => Some (end_gesture s1)
            end
          else Some s1
        else Some s
    end
  else Some s.

(** ** Operation sequences *)

Inductive Op :=
| Mouse (e : Event)
| Undo
| Redo
| DeleteSelected
| OpenImage (loaded_ok : bool).

Definition step (s : State) (o : Op) : option State :=
  match o with
  | Mouse e => eventFilter s e
  | Undo => undo_action s
  | Redo => redo_action s
  | DeleteSelected => delete_selected s
  | OpenImage ok => Some (open_image ok s)
  end.

(** The states after each operation of a sequence, in order; [None] as soon
    as one operation raises. *)
Fixpoint trace (s : State) (ops : list Op) : option (list State) :=
  match ops with
  | [] => Some []
  | o :: rest =>
      s' <- step s o ;;
      t <- trace s' rest ;;
      Some (s' :: t)
  end.

(** The live list is the snapshot the history position points at. *)
Definition live_is_snapshot (s : State) : Prop :=
  PyList.getitem (rectangle_history s) (current_history_index s)
  = Some (rectangles s).

(** ** Coordinate conversion before a crop *)

(** Python's [int()] on a float: truncation toward zero. *)
Definition py_int (x : Q) : Z := Z.quot (Qnum x) (Zpos (Qden x)).

(** ** Float rounding *)

(** The exponent [e] with [2 ^ e <= q < 2 ^ (e + 1)], for [q] positive. *)
Definition binade (q : Q) : Z :=
  let e := Z.log2 (Qnum q) - Z.log2 (Zpos (Qden q)) in
  if Qle_bool (2 ^ e) q then e else e - 1.

(** The nearest integer, the even one of two that are equally near. *)
Definition round_half_even (m : Q) : Z :=
  let f := Qfloor m in
  match (m - inject_Z f ?= 1 # 2)%Q with
  | Lt => f
  | Gt => f + 1
  | Eq => if Z.even f then f else f + 1
  end.

(** The binary64 number nearest to [q]: a multiple of the unit in the
    last place of [q], which is [2 ^ (e - 52)] in the binade [e] of [q]
    and [2 ^ -1074] below [2 ^ -1022].  Overflow to infinity, which needs
    a magnitude of [2 ^ 1024], is left out. *)
Definition round_float (q : Q) : Q :=
  let r := Qred q in
  if Qnum r =? 0 then 0%Q
  else
    let ulp := (2 ^ (Z.max (binade (Qabs r)) (-1022) - 52))%Q in
    (inject_Z (Z.sgn (Qnum r) * round_half_even (Qabs r / ulp)) * ulp)%Q.



(** The two size globals, each a [(width, height)] pair as [open_image]
    stores them. *)
Record Sizes := mkSizes
  { img_original_size : Z * Z;
    img_resized_size : Z * Z }.

(** [open_image]: the native size is recorded, the display width is fixed
    at 1260 and the display height is [int(new_width / aspect_ratio)],
    where [aspect_ratio = width / height] is a float.  The sizes of an
    image that was read are positive. *)
Definition open_image_sizes (width height : Z) : Sizes :=
  let aspect_ratio := round_float (inject_Z width / inject_Z height) in
  let new_width := 1260 in
  let new_height :=
    py_int (round_float (inject_Z new_width / aspect_ratio)) in
  mkSizes (width, height) (new_width, new_height).

(** [int(c * resized / original)] with the float operations of the
    source: the two integers are converted to floats, the product is
    rounded, the quotient is rounded, the result is truncated.  A zero
    divisor raises [ZeroDivisionError]. *)
Definition to_resized_float (c : Q) (resized original : Z) : option Z :=
  if original =? 0 then None
  else Some (py_int (round_float
                       (round_float (c * round_float (inject_Z resized))
                        / round_float (inject_Z original)))).

(** The same expression in exact arithmetic, which the cropping below
    uses: it is what the float expression gives for every coordinate that
    is an integer, and never more than one away from it. *)
Definition to_resized (c : Q) (resized original : Z) : option Z :=
  if original =? 0 then None
  else Some (py_int (c * inject_Z resized / inject_Z original)%Q).

(** [int(x * img_resized_size[0] / img_original_size[1])] *)
Definition x_resized_float (sz : Sizes) (x : Q) : option Z :=
  to_resized_float x (fst (img_resized_size sz)) (snd (img_original_size sz)).


(** [int(x * img_resized_size[0] / img_original_size[1])] *)
Definition x_resized (sz : Sizes) (x : Q) : option Z :=
  to_resized x (fst (img_resized_size sz)) (snd (img_original_size sz)).

(** [int(y * img_resized_size[1] / img_original_size[0])] *)
Definition y_resized (sz : Sizes) (y : Q) : option Z :=
  to_resized y (snd (img_resized_size sz)) (fst (img_original_size sz)).

(** The four converted bounds [(x1, y1, x2, y2)] of a rectangle, in the
    order the source computes them. *)
Definition resized_bounds (sz : Sizes) (r : Rect) : option (Z * Z * Z * Z) :=
  x1r <- x_resized sz (r_x1 r) ;;
  y1r <- y_resized sz (r_y1 r) ;;
  x2r <- x_resized sz (r_x2 r) ;;
  y2r <- y_resized sz (r_y2 r) ;;
  Some (x1r, y1r, x2r, y2r).

(** ** Rasters *)

(** A pixel holds three 8-bit channels; an image is a list of rows. *)
Definition Pixel : Type := Z * Z * Z.
Definition Image : Type := list (list Pixel).
Definition Mask : Type := list (list Z).

Definition black : Pixel := (0, 0, 0).
Definition white : Pixel := (255, 255, 255).

Fixpoint zip_with {A B C : Type} (f : A -> B -> C) (l : list A) (m : list B)
  : list C :=
  match l, m with
  | a :: l', b :: m' => f a b :: zip_with f l' m'
  | _, _ => []
  end.

Definition map2d {A B : Type} (f : A -> B) (a : list (list A))
  : list (list B) := map (map f) a.

Definition zip2d {A B C : Type} (f : A -> B -> C)
  (a : list (list A)) (b : list (list B)) : list (list C) :=
  zip_with (zip_with f) a b.

Definition at2d {A : Type} (a : list (list A)) (i j : nat) : option A :=
  row <- nth_error a i ;; nth_error row j.

(** [img[y1:y2, x1:x2]] *)
Definition crop (img : Image) (x1 y1 x2 y2 : Z) : Image :=
  map (fun row => PyList.slice row x1 x2) (PyList.slice img y1 y2).

Definition image_empty {A : Type} (im : list (list A)) : bool :=
  match im with
  | [] => true
  | [] :: _ => true
  | _ => false
  end.

Definition sub_image (sz : Sizes) (img : Image) (r : Rect) : option Image :=
  b <- resized_bounds sz r ;;
  let '(x1r, y1r, x2r, y2r) := b in
  Some (crop img x1r y1r x2r y2r).

(** ** Background removal *)

(** [lo <= p <= hi] on every channel, the per-pixel test of
    [cv2.inRange]. *)
Definition in_bounds (lo hi p : Pixel) : bool :=
  let '(l0, l1, l2) := lo in
  let '(h0, h1, h2) := hi in
  let '(p0, p1, p2) := p in
  (l0 <=? p0) && (p0 <=? h0) && (l1 <=? p1) && (p1 <=? h1) &&
  (l2 <=? p2) && (p2 <=? h2).

Definition inRange (hsv : Image) (lo hi : Pixel) : Mask :=
  map2d (fun p => if in_bounds lo hi p then 255 else 0) hsv.

Definition full_like (img : Image) (v : Z) : Image :=
  map2d (fun _ => (v, v, v)) img.

Definition bitwise_not (m : Mask) : Mask :=
  map2d (fun v => Z.lxor v 255) m.

Definition pixel_and (p q : Pixel) : Pixel :=
  let '(p0, p1, p2) := p in
  let '(q0, q1, q2) := q in
  (Z.land p0 q0, Z.land p1 q1, Z.land p2 q2).

(** [cv2.bitwise_and(a, b, mask=m)]: the conjunction where the mask is
    non-zero, zero elsewhere. *)
Definition bitwise_and (a b : Image) (m : Mask) : Image :=
  zip2d (fun pq v => if v =? 0 then black else pixel_and (fst pq) (snd pq))
        (zip2d pair a b) m.

(** [im[m == key] = v] *)
Definition assign_where (im : Image) (m : Mask) (key v : Z) : Image :=
  zip2d (fun p w => if w =? key then (v, v, v) else p) im m.

Definition saturate (v : Z) : Z := Z.min 255 (Z.max 0 v).

(** [cv2.add]: channel-wise saturating sum. *)
Definition cv_add (a b : Image) : Image :=
  zip2d (fun p q =>
           let '(p0, p1, p2) := p in
           let '(q0, q1, q2) := q in
           (saturate (p0 + q0), saturate (p1 + q1), saturate (p2 + q2)))
        a b.

Definition lower_black : Pixel := (0, 0, 0).
Definition upper_black : Pixel := (180, 255, 220).

(** [ECGAnalysisPage.remove_background], from the colour image and its
    HSV conversion [hsv = cv2.cvtColor(img, cv2.COLOR_BGR2HSV)], to
    [preprocessed_img]. *)
Definition remove_background (img hsv : Image) : Image :=
  let mask_black := inRange hsv lower_black upper_black in
  let white_background := full_like img 255 in
  let mask_inv := bitwise_not mask_black in
  let black_on_white := bitwise_and img img mask_black in
  let black_on_white := assign_where black_on_white mask_black 255 0 in
  let non_black_on_white :=
    bitwise_and white_background white_background mask_inv in
  cv_add black_on_white non_black_on_white.

(** The masking step of [DigitalizeDialog.digitalize_selected], up to the
    image [result] that is then converted to grayscale. *)
Definition digitalize_selected_result (img hsv : Image) : Image :=
  let mask := inRange hsv (0, 0, 0) (180, 255, 220) in
  let result := bitwise_and img img mask in
  assign_where result mask 0 255.

(** [cv2.threshold(gray, thresh, maxval, cv2.THRESH_BINARY_INV)] *)
Definition threshold_binary_inv (gray : Mask) (thresh maxval : Z) : Mask :=
  map2d (fun v => if thresh <? v then 0 else maxval) gray.

(** ** Digitizers *)

(** [binary.shape]: [(height, width)] of a two-dimensional array. *)
Definition shape {A : Type} (a : list (list A)) : nat * nat :=
  (List.length a, List.length (hd [] a)).

(** [binary[:, x]] *)
Definition column (binary : Mask) (x : nat) : list Z :=
  map (fun row => nth x row 0) binary.

(** [np.where(col == v)[0]], counting rows from [i]. *)
Fixpoint where_eq (v : Z) (col : list Z) (i : Z) : list Z :=
  match col with
  | [] => []
  | c :: rest =>
      if c =? v then i :: where_eq v rest (i + 1)
      else where_eq v rest (i + 1)
  end.

Definition max_amplitude : Q := 1.
Definition min_amplitude : Q := -1.
Definition time_scale : Q := 1 # 100.

(** The representative row of [digitalize_lead], from the non-empty index
    array [first :: rest]: [(y_indices[0] + y_indices[-1]) // 2]. *)
Definition middle_pixel (first : Z) (rest : list Z) : Z :=
  (first + last rest first) / 2.

(** One iteration of the column loop of [digitalize_lead]. *)
Definition digitalize_lead_column (binary : Mask) (height : nat)
  (signal : list Q * list Q) (x : nat) : list Q * list Q :=
  match where_eq 255 (column binary x) 0 with
  | [] => signal
  | first :: rest =>
      let y := middle_pixel first rest in
      let normalized_y :=
        (max_amplitude - (max_amplitude - min_amplitude)
                         * (inject_Z y / inject_Z (Z.of_nat height)))%Q in
      let time := (inject_Z (Z.of_nat x) * time_scale)%Q in
      (fst signal ++ [time], snd signal ++ [normalized_y])
  end.

(** The loop of [digitalize_lead] over the columns of the binary image;
    the result is [(signal_x, signal_y)]. *)
Definition digitalize_lead_signal (binary : Mask) : list Q * list Q :=
  let '(height, width) := shape binary in
  fold_left (digitalize_lead_column binary height) (seq 0 width) ([], []).

(** The rows written to the CSV file: [zip(signal_x, signal_y)]. *)
Definition digitalize_lead (binary : Mask) : list (Q * Q) :=
  let '(signal_x, signal_y) := digitalize_lead_signal binary in
  combine signal_x signal_y.

(** [np.mean] of a non-empty integer array. *)
Definition np_mean (points : list Z) : Q :=
  (inject_Z (fold_right Z.add 0%Z points)
   / inject_Z (Z.of_nat (List.length points)))%Q.

(** One iteration of the column loop of
    [DigitalizeDialog.digitalize_selected]. *)
Definition digitalize_selected_column (binary : Mask)
  (signal : list Z * list Q) (x : nat) : list Z * list Q :=
  match where_eq 255 (column binary x) 0 with
  | [] => signal
  | points => (fst signal ++ [Z.of_nat x], snd signal ++ [np_mean points])
  end.

Definition digitalize_selected_signal (binary : Mask) : list Z * list Q :=
  let '(height, width) := shape binary in
  fold_left (digitalize_selected_column binary) (seq 0 width) ([], []).

(** The representative row [digitalize_lead] assigns to an index array. *)
Definition lead_row (y_indices : list Z) : option Z :=
  match y_indices with
  | [] => None
  | first :: rest => Some (middle_pixel first rest)
  end.

(** ** Export *)

Inductive FileContent :=
| ImageFile (im : Image)
| TextFile (text : string).

(** The files of the file system, most recent write first; a path that is
    written again shadows its previous content. *)
Definition FileSystem : Type := list (string * FileContent).

Definition read_file (fs : FileSystem) (path : string) : option FileContent :=
  option_map snd (find (fun e => String.eqb (fst e) path) fs).

(** [os.path.exists] *)
Definition path_exists (fs : FileSystem) (path : string) : bool :=
  match read_file fs path with Some _ => true | None => false end.

(** Whether a path can be opened for writing (its directory exists, it is
    not a directory itself, access is granted) is a property of the
    environment, [can_open]. *)

(** [cv2.imwrite], whose result the callers discard: an empty image
    raises; a path that cannot be opened makes it return [False] with
    nothing written. *)
Definition imwrite (can_open : string -> bool) (fs : FileSystem)
  (path : string) (im : Image) : option FileSystem :=
  if image_empty im then None
  else if can_open path then Some ((path, ImageFile im) :: fs)
  else Some fs.



Fixpoint ends_with_slash (s : string) : bool :=
  match s with
  | EmptyString => false
  | String c EmptyString => Ascii.eqb c "/"%char
  | String _ rest => ends_with_slash rest
  end.

(** [os.path.join] of two components (POSIX). *)
Definition path_join (a b : string) : string :=
  if prefix "/" b then b
  else if (a =? EmptyString)%string || ends_with_slash a then (a ++ b)%string
  else (a ++ "/" ++ b)%string.

(** [str(n)] for a non-negative integer. *)
Definition decimal (n : nat) : string :=
  NilEmpty.string_of_uint (Nat.to_uint n).

(** The [while os.path.exists(filename)] loop of [save_all_areas], entered
    with the current [filename] and [counter]; [fuel] bounds the number of
    tests of the loop condition. *)
Fixpoint free_area_filename (fs : FileSystem) (save_dir name : string)
  (fuel : nat) (filename : string) (counter : nat) : option string :=
  match fuel with
  | O => None
  | S fuel' =>
      if path_exists fs filename
      then free_area_filename fs save_dir name fuel'
             (path_join save_dir (name ++ "_" ++ decimal counter ++ ".png")%string)
             (S counter)
      else Some filename
  end.

(** Body of the [for rect in rectangles] loop of [save_all_areas]. *)
Definition save_area (can_open : string -> bool) (sz : Sizes) (img : Image)
  (save_dir : string) (fuel : nat) (fs : FileSystem) (rect : Rect)
  : option FileSystem :=
  sub <- sub_image sz img rect ;;
  let filename := path_join save_dir (r_name rect ++ ".png")%string in
  filename <- free_area_filename fs save_dir (r_name rect) fuel filename 1 ;;
  imwrite can_open fs filename sub.

(** The [for] loop of [save_all_areas]; the flag tells whether it ran to
    its end.  An exception stops it, and the files written before stay. *)
Fixpoint save_areas (can_open : string -> bool) (sz : Sizes) (img : Image)
  (save_dir : string) (fuel : nat) (fs : FileSystem) (rects : list Rect)
  : FileSystem * bool :=
  match rects with
  | [] => (fs, true)
  | rect :: rest =>
      match save_area can_open sz img save_dir fuel fs rect with
      | Some fs' => save_areas can_open sz img save_dir fuel fs' rest
      | None => (fs, false)
      end
  end.

Inductive SaveOutcome :=
| NothingToSave      (* the warning box: no rectangle or no image *)
| NoDirectory        (* the directory dialog was cancelled *)
| AllSaved
| SaveFailed.        (* the error box of the exception handler *)

(** [save_all_areas], with the global image ([None] before any load) and
    the directory the dialog returned (empty when cancelled). *)
Definition save_all_areas (can_open : string -> bool) (sz : Sizes)
  (img : option Image) (save_dir : string) (fuel : nat) (fs : FileSystem)
  (rects : list Rect) : FileSystem * SaveOutcome :=
  match rects, img with
  | [], _ | _, None => (fs, NothingToSave)
  | _, Some im =>
      if (save_dir =? EmptyString)%string then (fs, NoDirectory)
      else
        let '(fs', finished) :=
          save_areas can_open sz im save_dir fuel fs rects in
        (fs', if finished then AllSaved else SaveFailed)
  end.




(** ** Invariant of the store and concrete scenarios *)

(** What every reachable state of the store satisfies. *)
Record store_ok (s : State) : Prop := mkStoreOk
  { ok_selected : selected_rectangle s = None;
    ok_live : live_is_snapshot s;
    ok_index : 0 <= current_history_index s
               < PyList.len (rectangle_history s);
    ok_gesture : drawing s = true -> start_pos s <> None }.

(** [name] is carried by some rectangle of the list. *)
Definition label_used (name : string) (rs : list Rect) : bool :=
  existsb (fun r => (r_name r =? name)%string) rs.

Definition pt (x y : Z) : QPointF := mkPoint (inject_Z x) (inject_Z y).

(** A loaded page on which lead "II" has been drawn from (0,0) to (10,10)
    and a second drag from (20,20) is in progress. *)
Definition lead_II : Rect := mkRect 0 0 10 10 "II".
Definition dragging_second : State :=
  mkState [lead_II] None true [[]; [lead_II]] 1 (Some (pt 20 20)) true true.

(** Two overlapping regions, "first" drawn before "second", and a point
    inside both. *)
Definition first_drawn : Rect := mkRect 0 0 10 10 "first".
Definition second_drawn : Rect := mkRect 5 5 15 15 "second".
Definition overlapping : State :=
  mkState [first_drawn; second_drawn] None true
          [[]; [first_drawn]; [first_drawn; second_drawn]] 2 None false false.

(** ** Foreground rows of a column *)

(** Row [i] of the column holds a foreground (255) pixel. *)
Definition foreground (col : list Z) (i : Z) : Prop :=
  0 <= i /\ nth_error col (Z.to_nat i) = Some 255.

(** The CSV entry [digitalize_lead] produces for column [x], if any. *)
Definition lead_entry (binary : Mask) (height x : nat) : list (Q * Q) :=
  match where_eq 255 (column binary x) 0 with
  | [] => []
  | first :: rest =>
      [((inject_Z (Z.of_nat x) * time_scale)%Q,
        (max_amplitude - (max_amplitude - min_amplitude)
           * (inject_Z (middle_pixel first rest)
              / inject_Z (Z.of_nat height)))%Q)]
  end.

(** A 9x1 mask whose only column has foreground rows 0, 1 and 8. *)
Definition broken_trace : Mask :=
  [[255]; [255]; [0]; [0]; [0]; [0]; [0]; [0]; [255]].

(** A 4x3 mask with a single foreground pixel at row 1, column 2. *)
Definition single_pixel : Mask :=
  [[0; 0; 0]; [0; 0; 255]; [0; 0; 0]; [0; 0; 0]].

(** ** A light-gray pixel *)

(** A 1x1 image holding the gray pixel (200,200,200), whose HSV conversion
    is hue 0, saturation 0, value 200. *)
Definition gray_image : Image := [[(200, 200, 200)]].
Definition gray_hsv : Image := [[(0, 0, 200)]].

(** ** Candidate file names of the two export loops *)



(** Index of the first candidate that does not exist, searching from [i]
    with at most [fuel] tests. *)
Fixpoint first_free (fs : FileSystem) (candidate : nat -> string)
  (fuel i : nat) : option nat :=
  match fuel with
  | O => None
  | S fuel' =>
      if path_exists fs (candidate i)
      then first_free fs candidate fuel' (S i)
      else Some i
  end.

(** The 2000x1000 chart shown at 1260x630, with lead "II" marked from
    (100,100) to (300,200). *)
Definition chart_sizes : Sizes := open_image_sizes 2000 1000.
Definition chart : Image := repeat (repeat white 1260) 630.
Definition chart_lead : Rect := mkRect 100 100 300 200 "II".


(** Lead "II" exported twice into the empty directory [out], once per
    export path, every path being one that can be opened. *)
Definition areas_saved_twice : FileSystem * SaveOutcome :=
  save_all_areas (fun _ => true) chart_sizes (Some chart) "out" 3 []
    [chart_lead; chart_lead].


(** A state in which the selection global holds lead "II"; no operation of
    the page ever assigns it, so no run reaches such a state. *)
Definition selected_lead : State :=
  mkState [lead_II] (Some lead_II) true [[]; [lead_II]] 1 None false false.

(** The same lead exported where no path can be opened for writing. *)
Definition areas_saved_nowhere : FileSystem * SaveOutcome :=
  save_all_areas (fun _ => false) chart_sizes (Some chart) "out" 3 []
    [chart_lead].

(** The float nearest to 1.2, a coordinate on a 504x504 image shown at
    1260x1260: the exact quotient is just below 3, the rounded one is 3. *)
Definition float_1_2 : Q := 5404319552844595 # 4503599627370496.
Definition square_sizes : Sizes := open_image_sizes 504 504.

(** ** Further operations of the page *)

(** [reset_workspace], as far as the store is concerned; the flag tells
    whether [opened_image_path] is set.  The image reload that follows
    the two assignments does not touch the store. *)
Definition reset_workspace (opened_image_path : bool) (s : State) : State :=
  if opened_image_path
  then mkState [] None (image_loaded s) (rectangle_history s)
               (current_history_index s) (start_pos s) (current_rect s)
               (drawing s)
  else s.

(** The Undo button pressed [n] times in a row, and the same for Redo. *)
Fixpoint undo_times (n : nat) (s : State) : option State :=
  match n with
  | O => Some s
  | S n' => s' <- undo_action s ;; undo_times n' s'
  end.

Fixpoint redo_times (n : nat) (s : State) : option State :=
  match n with
  | O => Some s
  | S n' => s' <- redo_action s ;; redo_times n' s'
  end.

(** A rectangle as the release handler builds them: ordered corners and a
    non-empty name. *)
Definition rect_wf (r : Rect) : Prop :=
  (r_x1 r <= r_x2 r)%Q /\ (r_y1 r <= r_y2 r)%Q /\ r_name r <> EmptyString.

Definition store_wf (s : State) : Prop :=
  Forall rect_wf (rectangles s) /\
  Forall (Forall rect_wf) (rectangle_history s).

(** ** Binary images of the two digitizers *)

(** [digitalize_lead]: grayscale conversion, then inverse threshold at 1.
    [gray_of] is the per-pixel map of
    [cv2.cvtColor(_, cv2.COLOR_BGR2GRAY)]. *)
Definition lead_binary (gray_of : Pixel -> Z) (img : Image) : Mask :=
  threshold_binary_inv (map2d gray_of img) 1 255.

(** [digitalize_selected]: masking, grayscale conversion, inverse
    threshold at 127. *)
Definition selected_binary (gray_of : Pixel -> Z) (img hsv : Image) : Mask :=
  threshold_binary_inv (map2d gray_of (digitalize_selected_result img hsv))
                       127 255.

(** Column [x] holds at least one foreground pixel. *)
Definition has_foreground (binary : Mask) (x : nat) : bool :=
  existsb (Z.eqb 255) (column binary x).

(** The columns both digitizers keep. *)
Definition retained_columns (binary : Mask) : list nat :=
  filter (has_foreground binary) (seq 0 (snd (shape binary))).

(** The entry [digitalize_selected] records for column [x], if any. *)
Definition selected_entry (binary : Mask) (x : nat) : list (Z * Q) :=
  match where_eq 255 (column binary x) 0 with
  | [] => []
  | points => [(Z.of_nat x, np_mean points)]
  end.

(** The rows [a, a+1, ..., a+n-1]. *)
Fixpoint row_run (a : Z) (n : nat) : list Z :=
  match n with
  | O => []
  | S n' => a :: row_run (a + 1) n'
  end.

(** ** The observation dialog *)

(** The value stored per validated name: the dictionary with the keys
    "observation" and "class". *)
Record ObservationData := mkObservation
  { obs_text : string; obs_class : string }.

(** [observations_dict] keeps its keys in insertion order. *)
Definition Dict : Type := list (string * ObservationData).

Definition dict_get (d : Dict) (key : string) : option ObservationData :=
  option_map snd (find (fun e => String.eqb (fst e) key) d).

Definition dict_has (d : Dict) (key : string) : bool :=
  existsb (fun e => String.eqb (fst e) key) d.

Record Dialog := mkDialog
  { valid_selections : list string;
    observations_dict : Dict;
    remaining_options : list string }.

(** [ObservationDialog.__init__] *)
Definition init_dialog (rects : list Rect) : Dialog :=
  mkDialog [] [] (map r_name rects).

(** [on_validate], with the three widget values it reads. *)
Definition on_validate
  (selected_name selected_class observation_text : string) (d : Dialog)
  : option Dialog :=
  let dict :=
    if dict_has (observations_dict d) selected_name
    then observations_dict d
    else observations_dict d
         ++ [(selected_name, mkObservation observation_text selected_class)]
  in
  let valid :=
    if PyList.contains String.eqb selected_name (valid_selections d)
    then valid_selections d
    else valid_selections d ++ [selected_name] in
  if PyList.contains String.eqb selected_name (remaining_options d)
  then remaining <- PyList.remove String.eqb selected_name
                      (remaining_options d) ;;
       Some (mkDialog valid dict remaining)
  else Some (mkDialog valid dict (remaining_options d)).

(** A run of validations, each with the values read from the widgets. *)
Fixpoint validate_all (inputs : list (string * string * string)) (d : Dialog)
  : option Dialog :=
  match inputs with
  | [] => Some d
  | (name, cls, text) :: rest =>
      d' <- on_validate name cls text d ;; validate_all rest d'
  end.

(** The keys of the dictionary are the validated names, in order, each
    once. *)
Definition dialog_ok (d : Dialog) : Prop :=
  map fst (observations_dict d) = valid_selections d /\
  NoDup (valid_selections d).

(** * Properties *)

(** ** Python list primitives *)

Lemma len_app {A : Type} (l m : list A) :
  PyList.len (l ++ m) = PyList.len l + PyList.len m.
Proof. unfold PyList.len. rewrite length_app. lia. Qed.

Lemma len_nonneg {A : Type} (l : list A) : 0 <= PyList.len l.
Proof. unfold PyList.len. lia. Qed.

Lemma getitem_in_range {A : Type} (l : list A) (i : Z) :
  0 <= i < PyList.len l -> exists x, PyList.getitem l i = Some x.
Proof.
  intros Hi. unfold PyList.getitem.
  destruct (0 <=? i) eqn:E; [| apply Z.leb_gt in E; lia].
  destruct (nth_error l (Z.to_nat i)) as [x |] eqn:N; [now exists x |].
  apply nth_error_None in N. unfold PyList.len in Hi. lia.
Qed.

Lemma getitem_last {A : Type} (l : list A) (x : A) :
  PyList.getitem (l ++ [x]) (PyList.len (l ++ [x]) - 1) = Some x.
Proof.
  unfold PyList.getitem. rewrite len_app.
  change (PyList.len [x]) with 1.
  pose proof (len_nonneg l) as Hl.
  destruct (0 <=? PyList.len l + 1 - 1) eqn:E; [| apply Z.leb_gt in E; lia].
  replace (Z.to_nat (PyList.len l + 1 - 1)) with (List.length l)
    by (unfold PyList.len; lia).
  rewrite nth_error_app2 by lia. now rewrite Nat.sub_diag.
Qed.

(** ** History *)

Lemma add_to_history_live (s : State) : live_is_snapshot (add_to_history s).
Proof. unfold live_is_snapshot, add_to_history; cbn. apply getitem_last. Qed.

Lemma add_to_history_index (s : State) :
  0 <= current_history_index (add_to_history s)
    < PyList.len (rectangle_history (add_to_history s)).
Proof.
  unfold add_to_history; cbn. rewrite len_app.
  change (PyList.len [rectangles s]) with 1.
  pose proof (len_nonneg
    (PyList.slice_to (rectangle_history s) (current_history_index s + 1))).
  lia.
Qed.

(** A commit leaves nothing to redo. *)
Lemma redo_after_commit (s : State) :
  redo_action (add_to_history s) = Some (add_to_history s).
Proof.
  unfold redo_action.
  replace (current_history_index (add_to_history s)
           <? PyList.len (rectangle_history (add_to_history s)) - 1)
    with false; [reflexivity |].
  symmetry. apply Z.ltb_ge. unfold add_to_history; cbn. lia.
Qed.

Lemma initial_state_ok : store_ok initial_state.
Proof. split; cbn; try reflexivity; try lia; discriminate. Qed.

Lemma goto_snapshot_ok (s : State) (i : Z) :
  store_ok s -> 0 <= i < PyList.len (rectangle_history s) ->
  exists s', goto_snapshot s i = Some s' /\ store_ok s'.
Proof.
  intros Hs Hi. unfold goto_snapshot.
  destruct (getitem_in_range _ Hi) as [snap Hsnap]. rewrite Hsnap. cbn.
  eexists; split; [reflexivity |].
  destruct Hs; split; cbn; auto.
Qed.

Lemma undo_action_ok (s : State) :
  store_ok s -> exists s', undo_action s = Some s' /\ store_ok s'.
Proof.
  intros Hs. unfold undo_action.
  destruct (0 <? current_history_index s) eqn:E; [| eauto].
  apply Z.ltb_lt in E. apply goto_snapshot_ok; [assumption |].
  destruct Hs; lia.
Qed.

Lemma redo_action_ok (s : State) :
  store_ok s -> exists s', redo_action s = Some s' /\ store_ok s'.
Proof.
  intros Hs. unfold redo_action.
  destruct (current_history_index s <? _) eqn:E; [| eauto].
  apply Z.ltb_lt in E. apply goto_snapshot_ok; [assumption |].
  destruct Hs; lia.
Qed.

Lemma delete_selected_ok (s : State) :
  store_ok s -> delete_selected s = Some s.
Proof. intros Hs. unfold delete_selected. now rewrite (ok_selected Hs). Qed.

Lemma commit_ok (s : State) (rs : list Rect) :
  store_ok s -> store_ok (add_to_history (set_rectangles s rs)).
Proof.
  intros Hs. split.
  - exact (ok_selected Hs).
  - apply add_to_history_live.
  - apply add_to_history_index.
  - exact (ok_gesture Hs).
Qed.

(** ** Hit test *)

Lemma rect_eqb_refl (r : Rect) : rect_eqb r r = true.
Proof.
  unfold rect_eqb. rewrite !Qeq_bool_refl, String.eqb_refl. reflexivity.
Qed.

Lemma hit_rect_eqb (p : QPointF) (a b : Rect) :
  rect_eqb a b = true -> hit p a = hit p b.
Proof.
  unfold rect_eqb, hit. rewrite !andb_true_iff, !Qeq_bool_iff.
  intros [[[[E1 E2] E3] E4] _]. now rewrite E1, E2, E3, E4.
Qed.

(** The press handler's loop stops at the first rectangle, in list order,
    that contains the point, and [remove] takes out exactly that one. *)
Lemma clicked_rectangle_first (p : QPointF) (rs : list Rect) (r : Rect) :
  clicked_rectangle p rs = Some r ->
  exists before after,
    rs = before ++ r :: after /\
    Forall (fun a => hit p a = false) before /\
    hit p r = true /\
    PyList.remove rect_eqb r rs = Some (before ++ after).
Proof.
  unfold clicked_rectangle. induction rs as [| a t IH]; cbn; [discriminate |].
  destruct (hit p a) eqn:Ha.
  - intros [= ->]. exists [], t. rewrite rect_eqb_refl. auto.
  - intros Hf. destruct (IH Hf) as (before & after & -> & Hb & Hr & Hrm).
    exists (a :: before), after. repeat split; auto.
    destruct (rect_eqb a r) eqn:E.
    + apply (hit_rect_eqb p) in E. congruence.
    + rewrite Hrm. reflexivity.
Qed.

Lemma clicked_rectangle_none (p : QPointF) (rs : list Rect) :
  clicked_rectangle p rs = None <-> Forall (fun a => hit p a = false) rs.
Proof.
  unfold clicked_rectangle. split.
  - intros H. apply Forall_forall. intros a Ha.
    exact (find_none _ _ H a Ha).
  - induction 1 as [| a t Ha _ IH]; cbn; [reflexivity |]. now rewrite Ha.
Qed.

Lemma not_drawing_ok (s : State) (il cr : bool) (sp : option QPointF) :
  store_ok s ->
  store_ok (mkState (rectangles s) (selected_rectangle s) il
              (rectangle_history s) (current_history_index s) sp cr false).
Proof. intros Hs. destruct Hs; split; cbn; auto. discriminate. Qed.

Lemma end_gesture_ok (s : State) :
  store_ok s -> drawing s = false -> store_ok (end_gesture s).
Proof.
  intros Hs Hd. destruct Hs; split; cbn; auto. rewrite Hd. discriminate.
Qed.

Lemma add_region_ok (r : Rect) (s : State) :
  store_ok s -> store_ok (add_region r s).
Proof. intros Hs. unfold add_region. now apply commit_ok. Qed.

Lemma eventFilter_ok (s : State) (e : Event) :
  store_ok s -> exists s', eventFilter s e = Some s' /\ store_ok s'.
Proof.
  intros Hs. unfold eventFilter.
  destruct (image_loaded s); [| eauto].
  destruct e as [p | p | p dialog]; [| eauto |].
  - destruct (clicked_rectangle p (rectangles s)) as [r |] eqn:Hc.
    + destruct (clicked_rectangle_first _ _ Hc) as (b & a & _ & _ & _ & Hrm).
      rewrite Hrm. cbn. eexists; split; [reflexivity |].
      now apply commit_ok.
    + eexists; split; [reflexivity |].
      destruct Hs; split; cbn; auto. discriminate.
  - destruct (drawing s) eqn:Hd; [| eauto]. cbn.
    destruct (current_rect s);
      [| eexists; split; [reflexivity | now apply not_drawing_ok]].
    cbn [start_pos].
    destruct (start_pos s) as [sp |] eqn:Hsp;
      [| now destruct (ok_gesture Hs Hd)].
    cbn [bind].
    destruct dialog as [name |].
    + destruct (name =? EmptyString)%string;
        (eexists; split; [reflexivity |]); apply end_gesture_ok;
        try apply add_region_ok; auto using not_drawing_ok.
    + eexists; split; [reflexivity |].
      apply end_gesture_ok; auto using not_drawing_ok.
Qed.

Lemma step_ok (s : State) (o : Op) :
  store_ok s -> exists s', step s o = Some s' /\ store_ok s'.
Proof.
  intros Hs. destruct o as [e | | | | ok]; cbn.
  - now apply eventFilter_ok.
  - now apply undo_action_ok.
  - now apply redo_action_ok.
  - rewrite (delete_selected_ok Hs). eauto.
  - eexists; split; [reflexivity |].
    unfold open_image. destruct ok; [| assumption].
    destruct Hs; split; cbn; auto.
Qed.

Lemma trace_ok (ops : list Op) :
  forall s, store_ok s ->
  exists states, trace s ops = Some states /\ Forall store_ok states.
Proof.
  induction ops as [| o rest IH]; intros s Hs; cbn.
  - eauto.
  - destruct (step_ok o Hs) as (s' & -> & Hs'). cbn.
    destruct (IH s' Hs') as (t & -> & Ht). cbn. eauto.
Qed.

(** C1. Starting from the state the page is created in, every sequence of
    mouse events (drawing and naming a region, deleting one by a click),
    of [delete_selected], undo and redo calls (and image loads) runs
    without raising, and after each operation the live list [rectangles]
    is the snapshot [rectangle_history[current_history_index]]. *)
Theorem live_list_is_current_snapshot (ops : list Op) :
  exists states,
    trace initial_state ops = Some states /\
    Forall live_is_snapshot states.
Proof.
  destruct (trace_ok ops initial_state_ok) as (t & Ht & Hok).
  exists t. split; [assumption |].
  eapply Forall_impl; [| exact Hok]. intros s Hs. exact (ok_live Hs).
Qed.

(** The scenarios are reachable from the initial state through the event
    filter. *)
Example dragging_second_reachable :
  option_map (fun states => last states initial_state)
    (trace initial_state
       [OpenImage true;
        Mouse (MouseButtonPress (pt 0 0));
        Mouse (MouseButtonRelease (pt 10 10) (Some "II"%string));
        Mouse (MouseButtonPress (pt 20 20))])
  = Some dragging_second.
Proof. vm_compute. reflexivity. Qed.

(** C2. On a freshly loaded page, after add(A); add(B); undo(); add(C)
    the history is [[], [A], [A, C]] at position 2, so the snapshot
    [A, B] is gone and a redo changes neither the live list nor the
    position. *)
Theorem redo_after_new_edit_is_noop (A B C : Rect) :
  exists s3 s4,
    undo_action (add_region B (add_region A (open_image true initial_state)))
    = Some s3 /\
    s4 = add_region C s3 /\
    redo_action s4 = Some s4 /\
    rectangles s4 = [A; C] /\
    rectangle_history s4 = [[]; [A]; [A; C]] /\
    current_history_index s4 = 2.
Proof.
  eexists. eexists. split; [vm_compute; reflexivity |].
  split; [reflexivity |].
  split; [apply redo_after_commit |].
  repeat split.
Qed.

(** The same scenario driven through mouse events and the two buttons. *)
Example redo_after_new_edit_events :
  option_map
    (map (fun s => (map r_name (rectangles s), current_history_index s)))
    (trace initial_state
       [OpenImage true;
        Mouse (MouseButtonPress (pt 0 0));
        Mouse (MouseButtonRelease (pt 10 10) (Some "A"%string));
        Mouse (MouseButtonPress (pt 20 0));
        Mouse (MouseButtonRelease (pt 30 10) (Some "B"%string));
        Undo;
        Mouse (MouseButtonPress (pt 40 0));
        Mouse (MouseButtonRelease (pt 50 10) (Some "C"%string));
        Redo])
  = Some [([], 0); ([], 0); (["A"], 1); (["A"], 1); (["A"; "B"], 2);
          (["A"], 1); (["A"], 1); (["A"; "C"], 2); (["A"; "C"], 2)]%string.
Proof. vm_compute. reflexivity. Qed.

(** C3, as stated, fails: with lead "II" already drawn, naming a second
    region "II" is accepted; the list grows to two rectangles labelled "II"
    and a snapshot is committed. *)
Lemma duplicate_label_is_accepted :
  label_used "II" (rectangles dragging_second) = true /\
  exists s',
    eventFilter dragging_second
      (MouseButtonRelease (pt 30 30) (Some "II"%string)) = Some s' /\
    map r_name (rectangles s') = ["II"; "II"]%string /\
    rectangles s' <> rectangles dragging_second /\
    rectangle_history s' <> rectangle_history dragging_second.
Proof.
  split; [reflexivity |].
  eexists. split; [reflexivity |].
  split; [reflexivity |].
  split; intros H; apply (f_equal (@List.length _)) in H; discriminate H.
Qed.

(** C3, amended. Releasing the button of a drag with an accepted,
    non-empty name always appends the region and commits a snapshot,
    whether or not the name is already in use; the list and the history
    stay as they are exactly when the dialog is rejected or the name is
    empty. *)
Theorem release_appends_any_label
  (s : State) (sp p : QPointF) (dialog : option string) :
  image_loaded s = true -> drawing s = true -> current_rect s = true ->
  start_pos s = Some sp ->
  exists s',
    eventFilter s (MouseButtonRelease p dialog) = Some s' /\
    match dialog with
    | Some name =>
        if (name =? EmptyString)%string
        then rectangles s' = rectangles s /\
             rectangle_history s' = rectangle_history s /\
             current_history_index s' = current_history_index s
        else
          let r := rect_tuple (normalized (QRectF_of_points sp p)) name in
          rectangles s' = rectangles s ++ [r] /\
          rectangle_history s' =
            PyList.slice_to (rectangle_history s) (current_history_index s + 1)
            ++ [rectangles s ++ [r]] /\
          current_history_index s' = PyList.len (rectangle_history s') - 1
    | None =>
        rectangles s' = rectangles s /\
        rectangle_history s' = rectangle_history s /\
        current_history_index s' = current_history_index s
    end.
Proof.
  intros Hl Hd Hc Hsp. unfold eventFilter. rewrite Hl, Hd. cbn.
  rewrite Hc, Hsp. cbn.
  destruct dialog as [name |]; [| eauto].
  destruct (name =? EmptyString)%string; eexists; (split; [reflexivity |]);
    cbn; auto.
Qed.

Lemma release_appends_any_label_witness :
  label_used "II" (rectangles dragging_second) = true /\
  exists s',
    eventFilter dragging_second
      (MouseButtonRelease (pt 30 30) (Some "II"%string)) = Some s' /\
    rectangles s' =
      rectangles dragging_second
      ++ [rect_tuple (normalized (QRectF_of_points (pt 20 20) (pt 30 30)))
            "II"] /\
    rectangle_history s' =
      PyList.slice_to (rectangle_history dragging_second)
        (current_history_index dragging_second + 1)
      ++ [rectangles dragging_second
          ++ [rect_tuple (normalized (QRectF_of_points (pt 20 20) (pt 30 30)))
                "II"]] /\
    current_history_index s' = PyList.len (rectangle_history s') - 1.
Proof.
  split; [reflexivity |].
  exact (@release_appends_any_label dragging_second (pt 20 20) (pt 30 30)
           (Some "II"%string) eq_refl eq_refl eq_refl eq_refl).
Defined.

(** C7, as stated, fails: a click at (7,7), inside both overlapping
    regions, stops at the first-drawn one and deletes it; the last-drawn
    region, which also contains the point, stays. *)
Lemma click_takes_first_drawn :
  hit (pt 7 7) first_drawn = true /\
  hit (pt 7 7) second_drawn = true /\
  clicked_rectangle (pt 7 7) (rectangles overlapping) = Some first_drawn /\
  clicked_rectangle (pt 7 7) (rectangles overlapping) <> Some second_drawn /\
  option_map rectangles
    (eventFilter overlapping (MouseButtonPress (pt 7 7)))
  = Some [second_drawn].
Proof. repeat split; try reflexivity. discriminate. Qed.

(** C7, amended. A click inside one or more rectangles stops at the
    earliest one in insertion order that contains the point, removes it
    and commits; a click inside none starts a draw gesture at that point
    and leaves the list alone. *)
Theorem click_hits_earliest_containing (s : State) (p : QPointF) :
  image_loaded s = true ->
  (forall r, clicked_rectangle p (rectangles s) = Some r ->
     exists before after,
       rectangles s = before ++ r :: after /\
       Forall (fun a => hit p a = false) before /\
       hit p r = true /\
       eventFilter s (MouseButtonPress p)
       = Some (add_to_history (set_rectangles s (before ++ after)))) /\
  (Exists (fun a => hit p a = true) (rectangles s) ->
     exists r, clicked_rectangle p (rectangles s) = Some r) /\
  (Forall (fun a => hit p a = false) (rectangles s) ->
     exists s',
       eventFilter s (MouseButtonPress p) = Some s' /\
       rectangles s' = rectangles s /\
       rectangle_history s' = rectangle_history s /\
       drawing s' = true /\ start_pos s' = Some p).
Proof.
  intros Hl. split; [| split].
  - intros r Hc.
    destruct (clicked_rectangle_first _ _ Hc) as (b & a & E & Hb & Hr & Hrm).
    exists b, a. repeat split; auto.
    unfold eventFilter. rewrite Hl, Hc, Hrm. reflexivity.
  - intros Hex. destruct (clicked_rectangle p (rectangles s)) eqn:Hc;
      [eauto |].
    apply clicked_rectangle_none in Hc. apply Exists_exists in Hex.
    destruct Hex as (a & Hin & Ha).
    rewrite Forall_forall in Hc. rewrite (Hc a Hin) in Ha. discriminate.
  - intros Hnone. apply clicked_rectangle_none in Hnone.
    unfold eventFilter. rewrite Hl, Hnone. eexists; split; [reflexivity |].
    cbn. auto.
Qed.

Lemma click_hits_earliest_containing_witness :
  image_loaded overlapping = true /\
  exists before after,
    rectangles overlapping = before ++ first_drawn :: after /\
    Forall (fun a => hit (pt 7 7) a = false) before /\
    hit (pt 7 7) first_drawn = true /\
    eventFilter overlapping (MouseButtonPress (pt 7 7))
    = Some (add_to_history (set_rectangles overlapping (before ++ after))).
Proof.
  split; [reflexivity |].
  exact (proj1 (@click_hits_earliest_containing overlapping (pt 7 7) eq_refl)
           first_drawn eq_refl).
Defined.

(** [delete_selected] removes the selected rectangle without committing a
    snapshot; it is kept harmless by the selection never being set. *)
Example delete_selected_skips_commit :
  exists s',
    delete_selected selected_lead = Some s' /\
    rectangles s' = [] /\
    PyList.getitem (rectangle_history s') (current_history_index s')
    = Some [lead_II].
Proof. eexists. repeat split. Qed.

(** ** Coordinate conversion *)

Lemma py_int_nonneg (q : Q) : (0 <= q)%Q -> py_int q = Qfloor q.
Proof.
  destruct q as [n d]. unfold Qle, py_int, Qfloor; cbn. intros H.
  apply Z.quot_div_nonneg; lia.
Qed.



(** ** Float rounding: error and exactness *)


























(** Rounding can move the result across an integer: at the float nearest
    to 1.2 on the 504x504 image the exact quotient is just below 3 and
    its floor is 2, while the float expression gives 3; and a 900x700
    image is displayed 979 pixels high although 1260 * 700 / 900 is 980. *)
Example conversion_rounds_across_integer :
  x_resized_float square_sizes float_1_2 = Some 3 /\
  x_resized square_sizes float_1_2 = Some 2 /\
  img_resized_size (open_image_sizes 900 700) = (1260, 979).
Proof. repeat split; vm_compute; reflexivity. Qed.

(** ** Digitizers *)

Lemma where_eq_In (v : Z) (col : list Z) :
  forall i k,
    In k (where_eq v col i) <->
    exists n, k = i + Z.of_nat n /\ nth_error col n = Some v.
Proof.
  induction col as [| c rest IH]; intros i k; cbn.
  - split; [tauto |]. intros (n & _ & H). now destruct n.
  - assert (Hrest : In k (where_eq v rest (i + 1)) <->
                    exists n, k = i + Z.of_nat (S n)
                              /\ nth_error rest n = Some v).
    { rewrite IH. split; intros (n & -> & H); exists n; split; auto; lia. }
    destruct (c =? v) eqn:E; cbn; rewrite Hrest.
    + apply Z.eqb_eq in E. subst c. split.
      * intros [<- | (n & -> & H)].
        -- exists O. split; [lia | reflexivity].
        -- exists (S n). auto.
      * intros ([| n] & -> & H); [left; lia | right; eauto].
    + apply Z.eqb_neq in E. split.
      * intros (n & -> & H). exists (S n). auto.
      * intros ([| n] & -> & H); [cbn in H; congruence | eauto].
Qed.

Lemma where_eq_foreground (col : list Z) (k : Z) :
  In k (where_eq 255 col 0) <-> foreground col k.
Proof.
  rewrite where_eq_In. unfold foreground. split.
  - intros (n & -> & H). cbn. rewrite Nat2Z.id. split; [lia | assumption].
  - intros [Hk H]. exists (Z.to_nat k). split; [lia | assumption].
Qed.

Lemma where_eq_lower (v : Z) (col : list Z) (i k : Z) :
  In k (where_eq v col i) -> i <= k < i + PyList.len col.
Proof.
  rewrite where_eq_In. intros (n & -> & H).
  assert (n < List.length col)%nat by (apply nth_error_Some; congruence).
  unfold PyList.len. lia.
Qed.

Lemma where_eq_sorted (v : Z) (col : list Z) :
  forall i, StronglySorted Z.lt (where_eq v col i).
Proof.
  induction col as [| c rest IH]; intros i; cbn; [constructor |].
  destruct (c =? v); [| apply IH].
  constructor; [apply IH |].
  apply Forall_forall. intros k Hk. apply where_eq_lower in Hk. lia.
Qed.

Lemma sorted_first_le (first : Z) (rest : list Z) (k : Z) :
  StronglySorted Z.lt (first :: rest) -> In k (first :: rest) -> first <= k.
Proof.
  intros Hs [-> | Hk]; [lia |].
  apply StronglySorted_inv in Hs. destruct Hs as [_ Hall].
  rewrite Forall_forall in Hall. specialize (Hall k Hk). lia.
Qed.

Lemma last_cons {A : Type} (t : list A) :
  forall b d, last (b :: t) d = last t b.
Proof.
  induction t as [| c t IH]; intros b d; [reflexivity |].
  change (last (b :: c :: t) d) with (last (c :: t) d).
  now rewrite !IH.
Qed.

Lemma sorted_last_ge (rest : list Z) :
  forall first k,
    StronglySorted Z.lt (first :: rest) -> In k (first :: rest) ->
    k <= last rest first.
Proof.
  induction rest as [| b t IH]; intros first k Hs Hk.
  - destruct Hk as [-> | []]. cbn. lia.
  - apply StronglySorted_inv in Hs. destruct Hs as [Hs Hall].
    rewrite last_cons. destruct Hk as [-> | Hk].
    + apply Forall_inv in Hall.
      specialize (IH b b Hs (or_introl eq_refl)). lia.
    + now apply IH.
Qed.

Lemma last_In (rest : list Z) (first : Z) : In (last rest first) (first :: rest).
Proof.
  revert first. induction rest as [| b t IH]; intros first; [now left |].
  right. rewrite last_cons. apply IH.
Qed.

(** The column loop, entry by entry. *)
Lemma lead_fold (binary : Mask) (height : nat) (cols : list nat) :
  forall sx sy,
    let r := fold_left (digitalize_lead_column binary height) cols (sx, sy) in
    fst r = sx ++ map fst (flat_map (lead_entry binary height) cols) /\
    snd r = sy ++ map snd (flat_map (lead_entry binary height) cols).
Proof.
  induction cols as [| x rest IH]; intros sx sy; cbn.
  - now rewrite !app_nil_r.
  - unfold digitalize_lead_column at 2 4, lead_entry at 1 3.
    destruct (where_eq 255 (column binary x) 0) as [| first more]; cbn.
    + apply IH.
    + destruct (IH (sx ++ [(inject_Z (Z.of_nat x) * time_scale)%Q])
                   (sy ++ [(max_amplitude - (max_amplitude - min_amplitude)
                              * (inject_Z (middle_pixel first more)
                                 / inject_Z (Z.of_nat height)))%Q]))
        as [E1 E2].
      cbn in E1, E2. rewrite E1, E2, <- !app_assoc. auto.
Qed.

Lemma combine_fst_snd {A B : Type} (l : list (A * B)) :
  combine (map fst l) (map snd l) = l.
Proof. induction l as [| [a b] t IH]; cbn; congruence. Qed.

Lemma digitalize_lead_entries (binary : Mask) :
  digitalize_lead binary
  = flat_map (lead_entry binary (fst (shape binary)))
             (seq 0 (snd (shape binary))).
Proof.
  unfold digitalize_lead, digitalize_lead_signal.
  destruct (shape binary) as [height width]. cbn [fst snd].
  destruct (lead_fold binary height (seq 0 width) [] []) as [E1 E2].
  destruct (fold_left _ _ _) as [sx sy]. cbn in E1, E2. subst.
  apply combine_fst_snd.
Qed.

Lemma nth_is_255 (row : list Z) (x : nat) :
  nth x row 0 = 255 <-> nth_error row x = Some 255.
Proof.
  split.
  - intros H. destruct (Nat.lt_ge_cases x (List.length row)) as [Hx | Hx].
    + rewrite <- H. now apply nth_error_nth'.
    + rewrite nth_overflow in H by assumption. discriminate.
  - intros H. now apply nth_error_nth.
Qed.

Lemma foreground_at2d (binary : Mask) (x : nat) (i : Z) :
  foreground (column binary x) i <->
  0 <= i /\ at2d binary (Z.to_nat i) x = Some 255.
Proof.
  unfold foreground, column, at2d. rewrite nth_error_map.
  destruct (nth_error binary (Z.to_nat i)) as [row |]; cbn.
  - rewrite <- nth_is_255. split; intros [H0 H]; split; congruence.
  - split; intros [_ H]; discriminate.
Qed.

Lemma column_length (binary : Mask) (x : nat) :
  PyList.len (column binary x) = Z.of_nat (fst (shape binary)).
Proof. unfold PyList.len, column, shape. now rewrite length_map. Qed.

Lemma sorted_NoDup (l : list Z) : StronglySorted Z.lt l -> NoDup l.
Proof.
  induction 1 as [| a t _ IH Hall]; constructor; [| assumption].
  intros Hin. rewrite Forall_forall in Hall. specialize (Hall a Hin). lia.
Qed.

(** C5, as stated, fails on the digitizer of the dialog: for a column
    with foreground rows 0, 1 and 8 it records their mean, 3, where the
    midpoint of the extremes is 4. *)
Lemma selected_digitizer_records_mean :
  where_eq 255 (column broken_trace 0) 0 = [0; 1; 8] /\
  digitalize_selected_signal broken_trace = ([0], [(9 # 3)%Q]) /\
  (9 # 3 == 3)%Q /\
  ~ (9 # 3 == inject_Z ((0 + 8) / 2))%Q.
Proof.
  repeat split; try reflexivity. vm_compute. discriminate.
Qed.

(** C5, amended. On a column with at least one foreground pixel,
    [digitalize_lead] takes as representative row the floor of the
    midpoint of the smallest and the largest foreground row index, while
    the dialog's digitizer takes the mean of all foreground row indices. *)
Theorem representative_row_of_each_digitizer (binary : Mask) (x : nat) :
  (exists i, foreground (column binary x) i) ->
  exists mn mx rows,
    foreground (column binary x) mn /\
    foreground (column binary x) mx /\
    (forall i, foreground (column binary x) i -> mn <= i <= mx) /\
    (forall i, In i rows <-> foreground (column binary x) i) /\
    NoDup rows /\
    (forall height signal,
       digitalize_lead_column binary height signal x
       = (fst signal ++ [(inject_Z (Z.of_nat x) * time_scale)%Q],
          snd signal
          ++ [(max_amplitude - (max_amplitude - min_amplitude)
                 * (inject_Z ((mn + mx) / 2)
                    / inject_Z (Z.of_nat height)))%Q])) /\
    (forall signal,
       digitalize_selected_column binary signal x
       = (fst signal ++ [Z.of_nat x],
          snd signal
          ++ [(inject_Z (fold_right Z.add 0%Z rows)
               / inject_Z (Z.of_nat (List.length rows)))%Q])).
Proof.
  intros [i Hi].
  pose proof (where_eq_sorted 255 (column binary x) 0) as Hs.
  pose proof (where_eq_foreground (column binary x)) as Hfg.
  destruct (where_eq 255 (column binary x) 0) as [| first rest] eqn:E.
  - apply Hfg in Hi. destruct Hi.
  - exists first, (last rest first), (first :: rest).
    split; [apply Hfg; now left |].
    split; [apply Hfg; apply last_In |].
    split.
    { intros k Hk. apply Hfg in Hk. split.
      - now apply (sorted_first_le Hs).
      - now apply sorted_last_ge. }
    split; [exact Hfg |].
    split; [now apply sorted_NoDup |].
    split.
    + intros height signal. unfold digitalize_lead_column. now rewrite E.
    + intros signal. unfold digitalize_selected_column. now rewrite E.
Qed.

Lemma representative_row_of_each_digitizer_witness :
  exists mn mx rows,
    foreground (column broken_trace 0) mn /\
    foreground (column broken_trace 0) mx /\
    (forall i, foreground (column broken_trace 0) i -> mn <= i <= mx) /\
    (forall i, In i rows <-> foreground (column broken_trace 0) i) /\
    NoDup rows /\
    (forall height signal,
       digitalize_lead_column broken_trace height signal 0
       = (fst signal ++ [(inject_Z (Z.of_nat 0) * time_scale)%Q],
          snd signal
          ++ [(max_amplitude - (max_amplitude - min_amplitude)
                 * (inject_Z ((mn + mx) / 2)
                    / inject_Z (Z.of_nat height)))%Q])) /\
    (forall signal,
       digitalize_selected_column broken_trace signal 0
       = (fst signal ++ [Z.of_nat 0],
          snd signal
          ++ [(inject_Z (fold_right Z.add 0%Z rows)
               / inject_Z (Z.of_nat (List.length rows)))%Q])).
Proof.
  apply (@representative_row_of_each_digitizer broken_trace 0%nat).
  exists 0. split; [lia | reflexivity].
Defined.

(** The midpoint is floored: rows 0 and 1 give row 0. *)
Example middle_pixel_floors :
  lead_row (where_eq 255 (column [[255]; [255]] 0) 0) = Some 0.
Proof. reflexivity. Qed.

Lemma flat_map_nil {A B : Type} (f : A -> list B) (l : list A) :
  (forall a, In a l -> f a = []) -> flat_map f l = [].
Proof.
  induction l as [| a t IH]; intros H; cbn; [reflexivity |].
  rewrite (H a (or_introl eq_refl)). cbn. apply IH. intros b Hb.
  apply H. now right.
Qed.

Lemma flat_map_only {A B : Type} (f : A -> list B) (l : list A) (x : A) :
  NoDup l -> In x l -> (forall a, In a l -> a <> x -> f a = []) ->
  flat_map f l = f x.
Proof.
  induction 1 as [| a t Hnotin Hnd IH]; intros Hin Hf; [destruct Hin |].
  cbn. destruct Hin as [-> | Hin].
  - rewrite flat_map_nil; [apply app_nil_r |].
    intros b Hb. apply Hf; [now right |]. intros ->. contradiction.
  - rewrite (Hf a (or_introl eq_refl)) by (intros ->; contradiction).
    cbn. apply IH; [assumption |]. intros b Hb. apply Hf. now right.
Qed.

Lemma sorted_singleton (l : list Z) (r : Z) :
  StronglySorted Z.lt l -> (forall k, In k l <-> k = r) -> l = [r].
Proof.
  intros Hs Hin. destruct l as [| a t].
  - destruct (proj2 (Hin r) eq_refl).
  - assert (a = r) by (apply Hin; now left). subst a.
    destruct t as [| b t']; [reflexivity |].
    assert (b = r) by (apply Hin; right; now left). subst b.
    apply StronglySorted_inv in Hs. destruct Hs as [_ Hall].
    apply Forall_inv in Hall. lia.
Qed.

(** C6. An all-background mask digitizes to the empty sequence, and a mask
    whose only foreground pixel is at row [r], column [x] digitizes to the
    single entry (x * 0.01, 1 - 2 r / H), H being the height of the mask. *)
Theorem digitize_reference_cases (binary : Mask) :
  ((forall i j, at2d binary i j <> Some 255) -> digitalize_lead binary = []) /\
  (forall r x : nat,
     (x < snd (shape binary))%nat ->
     (forall i j, at2d binary i j = Some 255 <-> i = r /\ j = x) ->
     exists a,
       digitalize_lead binary
       = [((inject_Z (Z.of_nat x) * (1 # 100))%Q, a)] /\
       (a == 1 - 2 * inject_Z (Z.of_nat r)
                 / inject_Z (Z.of_nat (fst (shape binary))))%Q).
Proof.
  split.
  - intros Hbg. rewrite digitalize_lead_entries. apply flat_map_nil.
    intros x _. unfold lead_entry.
    destruct (where_eq 255 (column binary x) 0) as [| first rest] eqn:E;
      [reflexivity |].
    assert (Hin : In first (where_eq 255 (column binary x) 0))
      by (rewrite E; now left).
    apply where_eq_foreground, foreground_at2d in Hin.
    destruct Hin as [_ Hin]. now apply Hbg in Hin.
  - intros r x Hx Hpix. rewrite digitalize_lead_entries.
    assert (Hcol : forall j k,
               In k (where_eq 255 (column binary j) 0) <->
               k = Z.of_nat r /\ j = x).
    { intros j k. rewrite where_eq_foreground, foreground_at2d, Hpix.
      split; [intros (H0 & Hr & Hj) | intros [-> ->]].
      - split; [lia | assumption].
      - rewrite Nat2Z.id. repeat split. lia. }
    rewrite (@flat_map_only _ _ _ _ x).
    + unfold lead_entry.
      rewrite (@sorted_singleton (where_eq 255 (column binary x) 0)
                 (Z.of_nat r)).
      * eexists. split; [reflexivity |].
        unfold middle_pixel, max_amplitude, min_amplitude. cbn [last].
        replace ((Z.of_nat r + Z.of_nat r) / 2) with (Z.of_nat r)
          by (apply Z.div_unique_exact; lia).
        unfold Qdiv. ring.
      * apply where_eq_sorted.
      * intros k. rewrite Hcol. tauto.
    + apply seq_NoDup.
    + apply in_seq. lia.
    + intros j _ Hj. unfold lead_entry.
      destruct (where_eq 255 (column binary j) 0) as [| first rest] eqn:E;
        [reflexivity |].
      assert (Hin : In first (where_eq 255 (column binary j) 0))
        by (rewrite E; now left).
      apply Hcol in Hin. destruct Hin as [_ Hin]. contradiction.
Qed.

Lemma digitize_reference_cases_witness :
  digitalize_lead [[0; 0]; [0; 0]] = [] /\
  exists a,
    digitalize_lead single_pixel = [((inject_Z (Z.of_nat 2) * (1 # 100))%Q, a)]
    /\ (a == 1 - 2 * inject_Z (Z.of_nat 1) / inject_Z (Z.of_nat 4))%Q.
Proof.
  split.
  - apply (proj1 (digitize_reference_cases [[0; 0]; [0; 0]])).
    intros [| [| [| i]]] [| [| [| j]]]; cbn; discriminate.
  - apply (proj2 (digitize_reference_cases single_pixel) 1%nat 2%nat).
    + cbn. lia.
    + intros i j. split.
      * destruct i as [| [| [| [| i]]]]; destruct j as [| [| [| j]]];
          cbn; try discriminate; auto;
          try (destruct i; discriminate); destruct j; discriminate.
      * intros [-> ->]. reflexivity.
Defined.

(** C10. Every amplitude [digitalize_lead] outputs lies in (-1, 1]. *)
Theorem amplitudes_in_half_open_range (binary : Mask) :
  Forall (fun entry => (-1 < snd entry)%Q /\ (snd entry <= 1)%Q)
         (digitalize_lead binary).
Proof.
  rewrite digitalize_lead_entries. apply Forall_flat_map.
  apply Forall_forall. intros x _. unfold lead_entry.
  destruct (where_eq 255 (column binary x) 0) as [| first rest] eqn:E;
    constructor; [| constructor].
  cbn [snd].
  assert (Hf : In first (where_eq 255 (column binary x) 0))
    by (rewrite E; now left).
  assert (Hl : In (last rest first) (where_eq 255 (column binary x) 0))
    by (rewrite E; apply last_In).
  apply where_eq_lower in Hf, Hl. rewrite column_length in Hf, Hl.
  set (height := Z.of_nat (fst (shape binary))) in *.
  assert (Hy : 0 <= middle_pixel first rest <= height - 1).
  { unfold middle_pixel. split.
    - apply Z.div_pos; lia.
    - apply Z.div_le_upper_bound; lia. }
  set (y := middle_pixel first rest) in *.
  assert (Hh : (0 < inject_Z height)%Q)
    by (change (inject_Z 0 < inject_Z height)%Q; rewrite <- Zlt_Qlt; lia).
  assert (H0 : (0 <= inject_Z y / inject_Z height)%Q).
  { apply Qle_shift_div_l; [assumption |]. rewrite Qmult_0_l.
    change (inject_Z 0 <= inject_Z y)%Q. rewrite <- Zle_Qle. lia. }
  assert (H1 : (inject_Z y / inject_Z height < 1)%Q).
  { apply Qlt_shift_div_r; [assumption |]. rewrite Qmult_1_l.
    rewrite <- Zlt_Qlt. lia. }
  unfold max_amplitude, min_amplitude.
  set (q := (inject_Z y / inject_Z height)%Q) in *.
  split; lra.
Qed.

(** The bound is attained only from above: row 0 gives amplitude 1, the
    last row of a mask of height 4 gives -1/2. *)
Example amplitudes_of_extreme_rows :
  map snd (digitalize_lead [[255; 0]; [0; 0]; [0; 0]; [0; 255]])
  = [(1 - (1 - -1) * (0 / 4))%Q; (1 - (1 - -1) * (3 / 4))%Q].
Proof. reflexivity. Qed.

(** ** Background removal *)

Lemma nth_error_zip_with {A B C : Type} (f : A -> B -> C)
  (l : list A) (m : list B) (a : A) (b : B) :
  forall n, nth_error l n = Some a -> nth_error m n = Some b ->
            nth_error (zip_with f l m) n = Some (f a b).
Proof.
  revert m. induction l as [| x l IH]; intros [| y m] [| n]; cbn;
    try discriminate.
  - now intros [= ->] [= ->].
  - apply IH.
Qed.

Lemma at2d_map2d {A B : Type} (f : A -> B) (a : list (list A))
  (i j : nat) (v : A) :
  at2d a i j = Some v -> at2d (map2d f a) i j = Some (f v).
Proof.
  unfold at2d, map2d. rewrite nth_error_map.
  destruct (nth_error a i) as [row |]; cbn; [| discriminate].
  intros H. rewrite nth_error_map, H. reflexivity.
Qed.

Lemma at2d_zip2d {A B C : Type} (f : A -> B -> C)
  (a : list (list A)) (b : list (list B)) (i j : nat) (v : A) (w : B) :
  at2d a i j = Some v -> at2d b i j = Some w ->
  at2d (zip2d f a b) i j = Some (f v w).
Proof.
  unfold at2d, zip2d.
  destruct (nth_error a i) as [ra |] eqn:Ea; cbn; [| discriminate].
  destruct (nth_error b i) as [rb |] eqn:Eb; cbn; [| discriminate].
  intros Hv Hw.
  erewrite nth_error_zip_with by eassumption. cbn.
  now apply nth_error_zip_with.
Qed.

Lemma pixel_and_diag (p : Pixel) : pixel_and p p = p.
Proof. destruct p as [[a b] c]. cbn. now rewrite !Z.land_diag. Qed.

Lemma at2d_bitwise_and (a b : Image) (m : Mask) (i j : nat)
  (p q : Pixel) (v : Z) :
  at2d a i j = Some p -> at2d b i j = Some q -> at2d m i j = Some v ->
  at2d (bitwise_and a b m) i j
  = Some (if v =? 0 then black else pixel_and p q).
Proof.
  intros Ha Hb Hm. unfold bitwise_and.
  pose proof (at2d_zip2d pair _ _ _ _ Ha Hb) as Hab.
  exact (at2d_zip2d
           (fun (pq : Pixel * Pixel) (w : Z) =>
              if w =? 0 then black else pixel_and (fst pq) (snd pq))
           _ _ _ _ Hab Hm).
Qed.

Lemma at2d_assign_where (im : Image) (m : Mask) (key v : Z) (i j : nat)
  (p : Pixel) (w : Z) :
  at2d im i j = Some p -> at2d m i j = Some w ->
  at2d (assign_where im m key v) i j
  = Some (if w =? key then (v, v, v) else p).
Proof.
  intros Hp Hw. unfold assign_where.
  exact (at2d_zip2d (fun (q : Pixel) (u : Z) =>
                       if u =? key then (v, v, v) else q) _ _ _ _ Hp Hw).
Qed.

Lemma at2d_inRange (hsv : Image) (lo hi : Pixel) (i j : nat) (h : Pixel) :
  at2d hsv i j = Some h ->
  at2d (inRange hsv lo hi) i j = Some (if in_bounds lo hi h then 255 else 0).
Proof.
  intros Hh. unfold inRange.
  exact (at2d_map2d (fun q => if in_bounds lo hi q then 255 else 0)
           _ _ _ Hh).
Qed.

(** C8, as stated, fails on the masking step of the dialog's digitizer: a
    light-gray pixel lies inside the bounds, yet it is left at its own
    colour instead of being forced to black. *)
Lemma dialog_masking_keeps_colour :
  in_bounds (0, 0, 0) (180, 255, 220) (0, 0, 200) = true /\
  digitalize_selected_result gray_image gray_hsv = [[(200, 200, 200)]] /\
  at2d (digitalize_selected_result gray_image gray_hsv) 0 0 <> Some black /\
  remove_background gray_image gray_hsv = [[black]].
Proof. repeat split; try reflexivity. vm_compute. discriminate. Qed.

(** C8, amended. [remove_background] is a per-pixel two-level transform:
    a pixel whose HSV value lies inside the bounds (0,0,0)-(180,255,220)
    becomes pure black and any other pixel pure white.  The masking step
    of the dialog's digitizer forces the pixels outside the bounds to
    white too, but keeps the colour of the pixels inside. *)
Theorem background_separation_per_pixel
  (img hsv : Image) (i j : nat) (p h : Pixel) :
  at2d img i j = Some p -> at2d hsv i j = Some h ->
  at2d (remove_background img hsv) i j
  = Some (if in_bounds (0, 0, 0) (180, 255, 220) h then black else white) /\
  at2d (digitalize_selected_result img hsv) i j
  = Some (if in_bounds (0, 0, 0) (180, 255, 220) h then p else white).
Proof.
  intros Hp Hh.
  pose proof (at2d_inRange _ (0, 0, 0) (180, 255, 220) _ _ Hh) as Hm.
  split.
  - unfold remove_background, lower_black, upper_black.
    pose proof (at2d_assign_where _ _ 255 0 _ _
                  (at2d_bitwise_and _ _ _ _ _ Hp Hp Hm) Hm) as Hblack.
    assert (Hwhite : at2d (full_like img 255) i j = Some white)
      by (unfold full_like;
          exact (at2d_map2d (fun _ : Pixel => (255, 255, 255)) _ _ _ Hp)).
    assert (Hinv : at2d (bitwise_not
                           (inRange hsv (0, 0, 0) (180, 255, 220))) i j
                   = Some (Z.lxor (if in_bounds (0, 0, 0) (180, 255, 220) h
                                   then 255 else 0) 255))
      by (unfold bitwise_not;
          exact (at2d_map2d (fun v => Z.lxor v 255) _ _ _ Hm)).
    pose proof (at2d_bitwise_and _ _ _ _ _ Hwhite Hwhite Hinv) as Hrest.
    unfold cv_add. erewrite at2d_zip2d by eassumption.
    destruct (in_bounds (0, 0, 0) (180, 255, 220) h); reflexivity.
  - unfold digitalize_selected_result.
    rewrite (at2d_assign_where _ _ 0 255 _ _
               (at2d_bitwise_and _ _ _ _ _ Hp Hp Hm) Hm).
    rewrite pixel_and_diag.
    destruct (in_bounds (0, 0, 0) (180, 255, 220) h); reflexivity.
Qed.

Lemma background_separation_per_pixel_witness :
  at2d (remove_background gray_image gray_hsv) 0 0
  = Some (if in_bounds (0, 0, 0) (180, 255, 220) (0, 0, 200)
          then black else white) /\
  at2d (digitalize_selected_result gray_image gray_hsv) 0 0
  = Some (if in_bounds (0, 0, 0) (180, 255, 220) (0, 0, 200)
          then (200, 200, 200) else white).
Proof.
  exact (@background_separation_per_pixel gray_image gray_hsv 0%nat 0%nat
           (200, 200, 200) (0, 0, 200) eq_refl eq_refl).
Defined.

(** A pixel brighter than the value bound is whitened on both paths. *)
Example bright_pixel_is_whitened :
  remove_background [[(250, 250, 250)]] [[(0, 0, 250)]] = [[white]] /\
  digitalize_selected_result [[(250, 250, 250)]] [[(0, 0, 250)]] = [[white]].
Proof. split; reflexivity. Qed.

(** The binarisation of [digitalize_lead] marks the gray levels 0 and 1. *)
Example threshold_marks_black :
  threshold_binary_inv [[0; 1; 2; 255]] 1 255 = [[255; 255; 0; 0]].
Proof. reflexivity. Qed.

(** ** Export *)

Section StringFacts.
Local Open Scope string_scope.







End StringFacts.








Lemma read_file_cons (fs : FileSystem) (f p : string) (c : FileContent) :
  read_file ((f, c) :: fs) p
  = if (f =? p)%string then Some c else read_file fs p.
Proof. unfold read_file. cbn. now destruct (f =? p)%string. Qed.

Lemma path_exists_cons (fs : FileSystem) (f p : string) (c : FileContent) :
  path_exists ((f, c) :: fs) p = (f =? p)%string || path_exists fs p.
Proof.
  unfold path_exists. rewrite read_file_cons. now destruct (f =? p)%string.
Qed.

Lemma free_area_filename_free (fs : FileSystem) (d n : string) :
  forall fuel filename counter f,
    free_area_filename fs d n fuel filename counter = Some f ->
    path_exists fs f = false.
Proof.
  induction fuel as [| fuel IH]; intros filename counter f; cbn;
    [discriminate |].
  destruct (path_exists fs filename) eqn:E; [apply IH |].
  now intros [= <-].
Qed.

Lemma first_free_spec (fs : FileSystem) (candidate : nat -> string) :
  forall fuel i k,
    first_free fs candidate fuel i = Some k ->
    (i <= k)%nat /\ path_exists fs (candidate k) = false /\
    forall j, (i <= j < k)%nat -> path_exists fs (candidate j) = true.
Proof.
  induction fuel as [| fuel IH]; intros i k; cbn; [discriminate |].
  destruct (path_exists fs (candidate i)) eqn:E.
  - intros H. apply IH in H. destruct H as (Hle & Hk & Hbelow).
    split; [lia |]. split; [exact Hk |]. intros j Hj.
    destruct (Nat.eq_dec j i) as [-> | Hne]; [exact E | apply Hbelow; lia].
  - intros [= <-]. split; [lia |]. split; [exact E |]. intros j Hj. lia.
Qed.












(** On the chart, the two rectangles labelled "II" are both kept, with
    the same content, under [II.png] and [II_1.png]. *)
Example areas_saved_twice_kept :
  forall im, read_file (fst areas_saved_twice) "out/II.png" = Some im ->
             read_file (fst areas_saved_twice) "out/II_1.png" = Some im.
Proof. vm_compute. auto. Qed.

(** Where no path can be opened, [save_all_areas] still reports success
    and nothing has been written. *)
Example areas_saved_nowhere_reports_success :
  areas_saved_nowhere = ([], AllSaved).
Proof. vm_compute. reflexivity. Qed.

(** * Further properties *)

(** ** Undo, redo and commits *)

Lemma state_eta (s : State) :
  mkState (rectangles s) (selected_rectangle s) (image_loaded s)
          (rectangle_history s) (current_history_index s) (start_pos s)
          (current_rect s) (drawing s) = s.
Proof. now destruct s. Qed.

Lemma getitem_nonneg {A : Type} (l : list A) (i : Z) :
  0 <= i -> PyList.getitem l i = nth_error l (Z.to_nat i).
Proof.
  intros Hi. unfold PyList.getitem.
  destruct (0 <=? i) eqn:E; [reflexivity | apply Z.leb_gt in E; lia].
Qed.

Lemma slice_to_prefix {A : Type} (l : list A) (i : Z) :
  0 <= i <= PyList.len l -> PyList.slice_to l i = firstn (Z.to_nat i) l.
Proof.
  intros Hi. unfold PyList.slice_to, PyList.slice_bound.
  destruct (i <? 0) eqn:E; [apply Z.ltb_lt in E; lia |].
  now rewrite Z.min_r by lia.
Qed.

Lemma goto_snapshot_live (s : State) :
  store_ok s -> goto_snapshot s (current_history_index s) = Some s.
Proof.
  intros Hs. unfold goto_snapshot. rewrite (ok_live Hs). cbn.
  now rewrite state_eta.
Qed.

(** What one undo does to a consistent store. *)
Lemma undo_action_spec (s : State) :
  store_ok s ->
  exists s',
    undo_action s = Some s' /\ store_ok s' /\
    rectangle_history s' = rectangle_history s /\
    current_history_index s' = Z.max 0 (current_history_index s - 1).
Proof.
  intros Hs. unfold undo_action.
  destruct (0 <? current_history_index s) eqn:E.
  - apply Z.ltb_lt in E.
    destruct (@goto_snapshot_ok s (current_history_index s - 1) Hs)
      as (s' & Hgo & Hs'); [destruct Hs; lia |].
    exists s'. split; [assumption |]. split; [assumption |].
    unfold goto_snapshot in Hgo.
    destruct (PyList.getitem _ _); [| discriminate].
    injection Hgo as <-. cbn. split; [reflexivity | lia].
  - apply Z.ltb_ge in E. exists s. repeat split; try apply Hs.
    destruct Hs; lia.
Qed.

Lemma redo_action_spec (s : State) :
  store_ok s ->
  exists s',
    redo_action s = Some s' /\ store_ok s' /\
    rectangle_history s' = rectangle_history s /\
    current_history_index s'
    = Z.min (PyList.len (rectangle_history s) - 1)
            (current_history_index s + 1).
Proof.
  intros Hs. unfold redo_action.
  destruct (current_history_index s <? _) eqn:E.
  - apply Z.ltb_lt in E.
    destruct (@goto_snapshot_ok s (current_history_index s + 1) Hs)
      as (s' & Hgo & Hs'); [destruct Hs; lia |].
    exists s'. split; [assumption |]. split; [assumption |].
    unfold goto_snapshot in Hgo.
    destruct (PyList.getitem _ _); [| discriminate].
    injection Hgo as <-. cbn. split; [reflexivity | lia].
  - apply Z.ltb_ge in E. exists s. repeat split; try apply Hs.
    destruct Hs; lia.
Qed.

(** X1. When there is something to undo, an undo followed by a redo gives
    back the very state it started from. *)
Theorem undo_then_redo_restores (s : State) :
  store_ok s -> 0 < current_history_index s ->
  exists s1, undo_action s = Some s1 /\ redo_action s1 = Some s.
Proof.
  intros Hs Hi. unfold undo_action.
  replace (0 <? current_history_index s) with true
    by (symmetry; apply Z.ltb_lt; lia).
  unfold goto_snapshot at 1.
  destruct (@getitem_in_range _ (rectangle_history s)
              (current_history_index s - 1)) as [snap Hsnap];
    [destruct Hs; lia |].
  rewrite Hsnap. cbn [bind]. eexists. split; [reflexivity |].
  unfold redo_action. cbn.
  replace (current_history_index s - 1
           <? PyList.len (rectangle_history s) - 1) with true
    by (symmetry; apply Z.ltb_lt; destruct Hs; lia).
  unfold goto_snapshot. cbn.
  replace (current_history_index s - 1 + 1) with (current_history_index s)
    by lia.
  rewrite (ok_live Hs). cbn. now rewrite state_eta.
Qed.

Lemma undo_then_redo_restores_witness :
  exists s1,
    undo_action dragging_second = Some s1 /\
    redo_action s1 = Some dragging_second.
Proof.
  apply undo_then_redo_restores.
  - split; cbn; try reflexivity; try lia; discriminate.
  - reflexivity.
Defined.

(** X2. When there is something to redo, a redo followed by an undo gives
    back the very state it started from. *)
Theorem redo_then_undo_restores (s : State) :
  store_ok s ->
  current_history_index s < PyList.len (rectangle_history s) - 1 ->
  exists s1, redo_action s = Some s1 /\ undo_action s1 = Some s.
Proof.
  intros Hs Hi. unfold redo_action.
  replace (current_history_index s <? PyList.len (rectangle_history s) - 1)
    with true by (symmetry; apply Z.ltb_lt; lia).
  unfold goto_snapshot at 1.
  destruct (@getitem_in_range _ (rectangle_history s)
              (current_history_index s + 1)) as [snap Hsnap];
    [destruct Hs; lia |].
  rewrite Hsnap. cbn [bind]. eexists. split; [reflexivity |].
  unfold undo_action. cbn.
  replace (0 <? current_history_index s + 1) with true
    by (symmetry; apply Z.ltb_lt; destruct Hs; lia).
  unfold goto_snapshot. cbn.
  replace (current_history_index s + 1 - 1) with (current_history_index s)
    by lia.
  rewrite (ok_live Hs). cbn. now rewrite state_eta.
Qed.

Lemma redo_then_undo_restores_witness :
  exists s1,
    redo_action (mkState [] None true [[]; [lead_II]] 0 None false false)
    = Some s1 /\
    undo_action s1
    = Some (mkState [] None true [[]; [lead_II]] 0 None false false).
Proof.
  apply redo_then_undo_restores.
  - split; cbn; try reflexivity; try lia; discriminate.
  - reflexivity.
Defined.

(** X3. [n] undos in a row move the position back by [n], stopping at 0,
    never raise, never touch the history, and leave as live list the
    snapshot at the position reached. *)
Theorem undo_times_clamps_at_start (n : nat) :
  forall s, store_ok s ->
  exists s',
    undo_times n s = Some s' /\
    current_history_index s'
    = Z.max 0 (current_history_index s - Z.of_nat n) /\
    rectangle_history s' = rectangle_history s /\
    PyList.getitem (rectangle_history s)
      (Z.max 0 (current_history_index s - Z.of_nat n))
    = Some (rectangles s').
Proof.
  induction n as [| n IH]; intros s Hs.
  - exists s. cbn [undo_times]. destruct Hs as [_ Hlive Hidx _].
    replace (Z.max 0 (current_history_index s - Z.of_nat 0))
      with (current_history_index s) by lia.
    auto.
  - destruct (undo_action_spec Hs) as (s1 & Hu & Hs1 & Hh & Hi).
    destruct (IH s1 Hs1) as (s' & Hn & Hi' & Hh' & Hlive).
    exists s'. cbn [undo_times]. rewrite Hu. cbn [bind].
    split; [assumption |].
    assert (E : Z.max 0 (current_history_index s1 - Z.of_nat n)
                = Z.max 0 (current_history_index s - Z.of_nat (S n)))
      by lia.
    rewrite <- E, <- Hh. split; [assumption |].
    split; [congruence | assumption].
Qed.

Lemma undo_times_clamps_at_start_witness :
  exists s',
    undo_times 5 dragging_second = Some s' /\
    current_history_index s'
    = Z.max 0 (current_history_index dragging_second - Z.of_nat 5) /\
    rectangle_history s' = rectangle_history dragging_second /\
    PyList.getitem (rectangle_history dragging_second)
      (Z.max 0 (current_history_index dragging_second - Z.of_nat 5))
    = Some (rectangles s').
Proof.
  apply undo_times_clamps_at_start.
  split; cbn; try reflexivity; try lia; discriminate.
Defined.

(** X4. [n] redos in a row move the position forward by [n], stopping at
    the last snapshot, never raise and never touch the history. *)
Theorem redo_times_clamps_at_end (n : nat) :
  forall s, store_ok s ->
  exists s',
    redo_times n s = Some s' /\
    current_history_index s'
    = Z.min (PyList.len (rectangle_history s) - 1)
            (current_history_index s + Z.of_nat n) /\
    rectangle_history s' = rectangle_history s /\
    PyList.getitem (rectangle_history s)
      (Z.min (PyList.len (rectangle_history s) - 1)
             (current_history_index s + Z.of_nat n))
    = Some (rectangles s').
Proof.
  induction n as [| n IH]; intros s Hs.
  - exists s. cbn [redo_times]. destruct Hs as [_ Hlive Hidx _].
    replace (Z.min (PyList.len (rectangle_history s) - 1)
                   (current_history_index s + Z.of_nat 0))
      with (current_history_index s) by lia.
    auto.
  - destruct (redo_action_spec Hs) as (s1 & Hu & Hs1 & Hh & Hi).
    destruct (IH s1 Hs1) as (s' & Hn & Hi' & Hh' & Hlive).
    exists s'. cbn [redo_times]. rewrite Hu. cbn [bind].
    split; [assumption |].
    assert (E : Z.min (PyList.len (rectangle_history s1) - 1)
                      (current_history_index s1 + Z.of_nat n)
                = Z.min (PyList.len (rectangle_history s) - 1)
                        (current_history_index s + Z.of_nat (S n)))
      by (rewrite Hh; destruct Hs; lia).
    rewrite <- E, <- Hh. split; [assumption |].
    split; [congruence | assumption].
Qed.

Lemma redo_times_clamps_at_end_witness :
  exists s',
    redo_times 5 (mkState [] None true [[]; [lead_II]] 0 None false false)
    = Some s' /\
    current_history_index s' = Z.min (2 - 1) (0 + Z.of_nat 5) /\
    rectangle_history s' = [[]; [lead_II]] /\
    PyList.getitem [[]; [lead_II]] (Z.min (2 - 1) (0 + Z.of_nat 5))
    = Some (rectangles s').
Proof.
  apply (@redo_times_clamps_at_end 5
           (mkState [] None true [[]; [lead_II]] 0 None false false)).
  split; cbn; try reflexivity; try lia; discriminate.
Defined.

(** X5. A commit keeps every snapshot up to the current position, drops
    all the later ones and puts the new list right after: the history
    then has [current_history_index + 2] entries. *)
Theorem commit_truncates_future (s : State) (rs : list Rect) :
  store_ok s ->
  let s' := add_to_history (set_rectangles s rs) in
  PyList.len (rectangle_history s') = current_history_index s + 2 /\
  current_history_index s' = current_history_index s + 1 /\
  (forall i, 0 <= i <= current_history_index s ->
             PyList.getitem (rectangle_history s') i
             = PyList.getitem (rectangle_history s) i) /\
  PyList.getitem (rectangle_history s') (current_history_index s + 1)
  = Some rs.
Proof.
  intros Hs. destruct Hs as [_ _ Hidx _]. cbn.
  rewrite slice_to_prefix by lia.
  assert (Hlen : List.length (firstn (Z.to_nat (current_history_index s + 1))
                                     (rectangle_history s))
                 = Z.to_nat (current_history_index s + 1)).
  { rewrite length_firstn. unfold PyList.len in Hidx. lia. }
  assert (Hl : PyList.len (firstn (Z.to_nat (current_history_index s + 1))
                                  (rectangle_history s) ++ [rs])
               = current_history_index s + 2).
  { rewrite len_app. unfold PyList.len at 1. rewrite Hlen.
    change (PyList.len [rs]) with 1. lia. }
  rewrite Hl. split; [reflexivity |]. split; [lia |]. split.
  - intros i Hi. rewrite !getitem_nonneg by lia.
    rewrite nth_error_app1 by lia.
    rewrite nth_error_firstn.
    destruct (Z.to_nat i <? Z.to_nat (current_history_index s + 1))%nat
      eqn:E; [reflexivity | apply Nat.ltb_ge in E; lia].
  - rewrite getitem_nonneg by lia.
    rewrite nth_error_app2 by lia.
    rewrite Hlen, Nat.sub_diag. reflexivity.
Qed.

Lemma commit_truncates_future_witness :
  let s' := add_to_history (set_rectangles dragging_second []) in
  PyList.len (rectangle_history s')
  = current_history_index dragging_second + 2 /\
  current_history_index s' = current_history_index dragging_second + 1 /\
  (forall i, 0 <= i <= current_history_index dragging_second ->
             PyList.getitem (rectangle_history s') i
             = PyList.getitem (rectangle_history dragging_second) i) /\
  PyList.getitem (rectangle_history s')
    (current_history_index dragging_second + 1)
  = Some [].
Proof.
  apply (@commit_truncates_future dragging_second []).
  split; cbn; try reflexivity; try lia; discriminate.
Defined.

(** One undo right after a commit made from [s] shows the list [s] had. *)
Lemma undo_after_commit (s t : State) (rs : list Rect) :
  store_ok s ->
  rectangle_history t
  = rectangle_history (add_to_history (set_rectangles s rs)) ->
  current_history_index t = current_history_index s + 1 ->
  exists s2,
    undo_action t = Some s2 /\
    rectangles s2 = rectangles s /\
    current_history_index s2 = current_history_index s.
Proof.
  intros Hs Hh Hi.
  destruct (commit_truncates_future rs Hs) as (_ & _ & Hpast & _).
  unfold undo_action. rewrite Hi.
  replace (0 <? current_history_index s + 1) with true
    by (symmetry; apply Z.ltb_lt; destruct Hs; lia).
  unfold goto_snapshot. rewrite Hh.
  replace (current_history_index s + 1 - 1) with (current_history_index s)
    by lia.
  rewrite Hpast by (destruct Hs; lia).
  rewrite (ok_live Hs). cbn. eauto.
Qed.

(** X6. Either edit of the event filter is taken back by one undo: after
    a click that deletes a rectangle, or a release that adds one, an undo
    shows the list as it was before the edit, at the position it had. *)
Theorem edit_is_taken_back_by_undo (s : State) :
  store_ok s -> image_loaded s = true ->
  (forall p r,
     clicked_rectangle p (rectangles s) = Some r ->
     exists s1 s2,
       eventFilter s (MouseButtonPress p) = Some s1 /\
       undo_action s1 = Some s2 /\
       rectangles s2 = rectangles s /\
       current_history_index s2 = current_history_index s) /\
  (forall p sp name,
     drawing s = true -> current_rect s = true -> start_pos s = Some sp ->
     name <> EmptyString ->
     exists s1 s2,
       eventFilter s (MouseButtonRelease p (Some name)) = Some s1 /\
       rectangles s1
       = rectangles s
         ++ [rect_tuple (normalized (QRectF_of_points sp p)) name] /\
       undo_action s1 = Some s2 /\
       rectangles s2 = rectangles s /\
       current_history_index s2 = current_history_index s).
Proof.
  intros Hs Hl. split.
  - intros p r Hc.
    destruct (clicked_rectangle_first _ _ Hc) as (b & a & _ & _ & _ & Hrm).
    unfold eventFilter. rewrite Hl, Hc, Hrm. cbn [bind].
    destruct (@undo_after_commit s
                (add_to_history (set_rectangles s (b ++ a))) (b ++ a) Hs
                eq_refl) as (s2 & Hu & Hr & Hi).
    { destruct (commit_truncates_future (b ++ a) Hs) as (_ & Hn & _).
      exact Hn. }
    exists (add_to_history (set_rectangles s (b ++ a))), s2. auto.
  - intros p sp name Hd Hc Hsp Hname.
    unfold eventFilter. rewrite Hl, Hd. cbn. rewrite Hc, Hsp. cbn [bind].
    destruct (name =? EmptyString)%string eqn:E;
      [apply String.eqb_eq in E; contradiction |].
    set (r := rect_tuple (normalized (QRectF_of_points sp p)) name).
    destruct (@undo_after_commit s
                (end_gesture
                   (add_region r
                      (mkState (rectangles s) (selected_rectangle s)
                         (image_loaded s) (rectangle_history s)
                         (current_history_index s) (Some sp) true false)))
                (rectangles s ++ [r]) Hs eq_refl) as (s2 & Hu & Hr & Hi).
    { destruct (commit_truncates_future (rectangles s ++ [r]) Hs)
        as (_ & Hn & _). exact Hn. }
    rewrite Hl in Hu.
    eexists. exists s2. split; [reflexivity |]. split; [reflexivity |].
    auto.
Qed.

Lemma edit_is_taken_back_by_undo_witness :
  (exists s1 s2,
     eventFilter overlapping (MouseButtonPress (pt 7 7)) = Some s1 /\
     undo_action s1 = Some s2 /\
     rectangles s2 = rectangles overlapping /\
     current_history_index s2 = current_history_index overlapping) /\
  (exists s1 s2,
     eventFilter dragging_second
       (MouseButtonRelease (pt 30 30) (Some "V1"%string)) = Some s1 /\
     rectangles s1
     = rectangles dragging_second
       ++ [rect_tuple (normalized (QRectF_of_points (pt 20 20) (pt 30 30)))
             "V1"] /\
     undo_action s1 = Some s2 /\
     rectangles s2 = rectangles dragging_second /\
     current_history_index s2 = current_history_index dragging_second).
Proof.
  split.
  - apply (proj1 (@edit_is_taken_back_by_undo overlapping
                    ltac:(split; cbn; try reflexivity; try lia; discriminate)
                    eq_refl) (pt 7 7) first_drawn).
    reflexivity.
  - apply (proj2 (@edit_is_taken_back_by_undo dragging_second
                    ltac:(split; cbn; try reflexivity; try lia; discriminate)
                    eq_refl) (pt 30 30) (pt 20 20) "V1"%string);
      try reflexivity.
    discriminate.
Defined.

(** X7. A reset empties the live list without committing: the history and
    the position stay, so the live list is the current snapshot again
    only if it was empty already, and an undo followed by a redo brings
    the list back that the reset cleared. *)
Theorem reset_does_not_commit (s : State) :
  store_ok s ->
  let s' := reset_workspace true s in
  rectangles s' = [] /\
  rectangle_history s' = rectangle_history s /\
  current_history_index s' = current_history_index s /\
  (live_is_snapshot s' <-> rectangles s = []) /\
  (0 < current_history_index s ->
   exists s1, undo_action s' = Some s1 /\ redo_action s1 = Some s).
Proof.
  intros Hs. cbn. repeat split; try reflexivity.
  - unfold live_is_snapshot. cbn. rewrite (ok_live Hs). congruence.
  - unfold live_is_snapshot. cbn. rewrite (ok_live Hs). congruence.
  - intros Hi. unfold undo_action. cbn.
    replace (0 <? current_history_index s) with true
      by (symmetry; apply Z.ltb_lt; lia).
    unfold goto_snapshot at 1. cbn.
    destruct (@getitem_in_range _ (rectangle_history s)
                (current_history_index s - 1)) as [snap Hsnap];
      [destruct Hs; lia |].
    rewrite Hsnap. cbn [bind]. eexists. split; [reflexivity |].
    unfold redo_action. cbn.
    replace (current_history_index s - 1
             <? PyList.len (rectangle_history s) - 1) with true
      by (symmetry; apply Z.ltb_lt; destruct Hs; lia).
    unfold goto_snapshot. cbn.
    replace (current_history_index s - 1 + 1) with (current_history_index s)
      by lia.
    rewrite (ok_live Hs). cbn.
    rewrite <- (ok_selected Hs). now rewrite state_eta.
Qed.

Lemma reset_does_not_commit_witness :
  let s' := reset_workspace true dragging_second in
  rectangles s' = [] /\
  rectangle_history s' = rectangle_history dragging_second /\
  current_history_index s' = current_history_index dragging_second /\
  (live_is_snapshot s' <-> rectangles dragging_second = []) /\
  (0 < current_history_index dragging_second ->
   exists s1,
     undo_action s' = Some s1 /\ redo_action s1 = Some dragging_second).
Proof.
  apply (@reset_does_not_commit dragging_second).
  split; cbn; try reflexivity; try lia; discriminate.
Defined.

(** ** Shape of the stored rectangles *)

Lemma Qle_bool_cases (w : Q) :
  if Qle_bool 0 w then (0 <= w)%Q else (w < 0)%Q.
Proof.
  destruct (Qle_bool 0 w) eqn:E.
  - now apply Qle_bool_iff.
  - apply Qnot_le_lt. intros H. apply Qle_bool_iff in H. congruence.
Qed.

Lemma normalized_rect_wf (q : QRectF) (name : string) :
  name <> EmptyString -> rect_wf (rect_tuple (normalized q) name).
Proof.
  intros Hname. unfold rect_wf, rect_tuple, normalized.
  pose proof (Qle_bool_cases (q_w q)) as Hw.
  pose proof (Qle_bool_cases (q_h q)) as Hh.
  destruct (Qle_bool 0 (q_w q)); destruct (Qle_bool 0 (q_h q));
    cbn; repeat split; try assumption; lra.
Qed.

Lemma firstn_Forall {A : Type} (P : A -> Prop) (n : nat) (l : list A) :
  Forall P l -> Forall P (firstn n l).
Proof.
  revert l. induction n as [| n IH]; intros l H; [constructor |].
  destruct H as [| x t Hx Ht]; cbn; constructor; auto.
Qed.

Lemma remove_Forall {A : Type} (eqb : A -> A -> bool) (P : A -> Prop)
  (x : A) (l : list A) :
  forall l', PyList.remove eqb x l = Some l' -> Forall P l -> Forall P l'.
Proof.
  induction l as [| y t IH]; intros l' Hrm Hall; cbn in Hrm;
    [discriminate |].
  apply Forall_cons_iff in Hall. destruct Hall as [Hy Ht].
  destruct (eqb y x); [now injection Hrm as <- |].
  destruct (PyList.remove eqb x t) as [t' |]; [| discriminate].
  injection Hrm as <-. constructor; auto.
Qed.

Lemma getitem_In {A : Type} (l : list A) (i : Z) (x : A) :
  PyList.getitem l i = Some x -> In x l.
Proof.
  unfold PyList.getitem.
  destruct (0 <=? i); [apply nth_error_In |].
  destruct (0 <=? PyList.len l + i); [apply nth_error_In | discriminate].
Qed.

Lemma add_to_history_wf (s : State) : store_wf s -> store_wf (add_to_history s).
Proof.
  intros [Hr Hh]. split; cbn; [assumption |].
  apply Forall_app. split; [| now constructor].
  unfold PyList.slice_to. now apply firstn_Forall.
Qed.

Lemma goto_snapshot_wf (s s' : State) (i : Z) :
  goto_snapshot s i = Some s' -> store_wf s -> store_wf s'.
Proof.
  unfold goto_snapshot. intros Hgo [Hr Hh].
  destruct (PyList.getitem (rectangle_history s) i) as [snap |] eqn:E;
    [| discriminate].
  injection Hgo as <-. split; cbn; [| assumption].
  apply getitem_In in E. rewrite Forall_forall in Hh. now apply Hh.
Qed.

Lemma step_wf (s s' : State) (o : Op) :
  step s o = Some s' -> store_wf s -> store_wf s'.
Proof.
  intros Hstep Hwf. destruct o as [e | | | | ok]; cbn in Hstep.
  - unfold eventFilter in Hstep.
    destruct (image_loaded s); [| now injection Hstep as <-].
    destruct e as [p | p | p dialog].
    + destruct (clicked_rectangle p (rectangles s)) as [r |].
      * destruct (PyList.remove rect_eqb r (rectangles s)) as [rs |] eqn:E;
          [| discriminate].
        injection Hstep as <-. apply add_to_history_wf.
        destruct Hwf as [Hr Hh]. split; cbn; [| assumption].
        eapply remove_Forall; eassumption.
      * injection Hstep as <-. exact Hwf.
    + now injection Hstep as <-.
    + destruct (drawing s); [| now injection Hstep as <-]. cbn in Hstep.
      destruct (current_rect s); [| now injection Hstep as <-].
      destruct (start_pos s) as [sp |]; [| discriminate]. cbn in Hstep.
      destruct dialog as [name |]; [| now injection Hstep as <-].
      destruct (name =? EmptyString)%string eqn:En;
        injection Hstep as <-; [exact Hwf |].
      apply String.eqb_neq in En.
      destruct Hwf as [Hr Hh].
      assert (Hnew : Forall rect_wf
                (rectangles s
                 ++ [rect_tuple (normalized (QRectF_of_points sp p)) name])).
      { apply Forall_app. split; [assumption |].
        constructor; [now apply normalized_rect_wf | constructor]. }
      split; cbn.
      * exact Hnew.
      * apply Forall_app. split; [| now constructor].
        unfold PyList.slice_to. now apply firstn_Forall.
  - unfold undo_action in Hstep.
    destruct (0 <? current_history_index s);
      [eapply goto_snapshot_wf; eassumption | now injection Hstep as <-].
  - unfold redo_action in Hstep.
    destruct (current_history_index s <? _);
      [eapply goto_snapshot_wf; eassumption | now injection Hstep as <-].
  - unfold delete_selected in Hstep.
    destruct (selected_rectangle s) as [sel |];
      [| now injection Hstep as <-].
    destruct (PyList.contains rect_eqb sel (rectangles s));
      [| now injection Hstep as <-].
    destruct (PyList.remove rect_eqb sel (rectangles s)) as [rs |] eqn:E;
      [| discriminate].
    injection Hstep as <-. destruct Hwf as [Hr Hh]. split; cbn;
      [eapply remove_Forall; eassumption | assumption].
  - injection Hstep as <-. unfold open_image. now destruct ok.
Qed.

Lemma trace_wf (ops : list Op) :
  forall s states,
    trace s ops = Some states -> store_wf s -> Forall store_wf states.
Proof.
  induction ops as [| o rest IH]; intros s states Ht Hwf; cbn in Ht.
  - injection Ht as <-. constructor.
  - destruct (step s o) as [s' |] eqn:Es; [| discriminate]. cbn in Ht.
    destruct (trace s' rest) as [t |] eqn:Et; [| discriminate].
    injection Ht as <-.
    pose proof (@step_wf s s' o Es Hwf) as Hs'. constructor; eauto.
Qed.

(** X8. Whatever the user does, every rectangle the store ever holds, in
    the live list or in any snapshot, has [x1 <= x2], [y1 <= y2] and a
    non-empty name. *)
Theorem stored_rectangles_are_well_formed (ops : list Op) :
  exists states,
    trace initial_state ops = Some states /\ Forall store_wf states.
Proof.
  destruct (trace_ok ops initial_state_ok) as (t & Ht & _).
  exists t. split; [assumption |].
  eapply trace_wf; [exact Ht |].
  split; cbn; repeat constructor.
Qed.

(** ** Ordering of the converted bounds *)

Lemma py_int_nonpos (q : Q) : (q <= 0)%Q -> py_int q = Qceiling q.
Proof.
  destruct q as [n d]. unfold Qle, py_int, Qceiling, Qfloor; cbn.
  intros H. rewrite Z.mul_1_r in H.
  replace n with (- - n) at 1 by lia.
  rewrite Z.quot_opp_l by lia.
  rewrite Z.quot_div_nonneg by lia. reflexivity.
Qed.

Lemma py_int_monotone (p q : Q) : (p <= q)%Q -> py_int p <= py_int q.
Proof.
  intros Hpq.
  destruct (Qlt_le_dec p 0) as [Hp | Hp];
    destruct (Qlt_le_dec q 0) as [Hq | Hq].
  - rewrite !py_int_nonpos by lra. now apply Qceiling_resp_le.
  - rewrite (@py_int_nonpos p), (@py_int_nonneg q) by lra.
    transitivity 0.
    + change 0 with (Qceiling 0). apply Qceiling_resp_le. lra.
    + change 0 with (Qfloor 0). now apply Qfloor_resp_le.
  - lra.
  - rewrite !py_int_nonneg by lra. now apply Qfloor_resp_le.
Qed.

Lemma to_resized_monotone (c1 c2 : Q) (resized original a b : Z) :
  0 <= resized -> 0 < original -> (c1 <= c2)%Q ->
  to_resized c1 resized original = Some a ->
  to_resized c2 resized original = Some b ->
  a <= b.
Proof.
  unfold to_resized. intros Hr Ho Hc.
  destruct (original =? 0); [discriminate |].
  intros [= <-] [= <-]. apply py_int_monotone.
  unfold Qdiv. apply Qmult_le_compat_r.
  - apply Qmult_le_compat_r; [assumption |].
    change 0%Q with (inject_Z 0). rewrite <- Zle_Qle. lia.
  - apply Qinv_le_0_compat.
    change 0%Q with (inject_Z 0). rewrite <- Zle_Qle. lia.
Qed.

(** X9. For a rectangle with ordered corners and an image with positive
    sizes, the conversion before a crop does not raise and keeps the
    corners ordered: the slice bounds satisfy [x1 <= x2] and [y1 <= y2]. *)
Theorem converted_bounds_stay_ordered (sz : Sizes) (r : Rect) :
  0 < fst (img_original_size sz) -> 0 < snd (img_original_size sz) ->
  0 <= fst (img_resized_size sz) -> 0 <= snd (img_resized_size sz) ->
  (r_x1 r <= r_x2 r)%Q -> (r_y1 r <= r_y2 r)%Q ->
  exists x1r y1r x2r y2r,
    resized_bounds sz r = Some (x1r, y1r, x2r, y2r) /\
    x1r <= x2r /\ y1r <= y2r.
Proof.
  intros How Hoh Hrw Hrh Hx Hy. unfold resized_bounds, x_resized, y_resized.
  assert (Hdef : forall c res orig, 0 < orig ->
                   exists v, to_resized c res orig = Some v).
  { intros c res orig Hpos. unfold to_resized.
    destruct (orig =? 0) eqn:E; [apply Z.eqb_eq in E; lia | eauto]. }
  destruct (Hdef (r_x1 r) (fst (img_resized_size sz)) _ Hoh) as [a Ha].
  destruct (Hdef (r_y1 r) (snd (img_resized_size sz)) _ How) as [b Hb].
  destruct (Hdef (r_x2 r) (fst (img_resized_size sz)) _ Hoh) as [c Hc].
  destruct (Hdef (r_y2 r) (snd (img_resized_size sz)) _ How) as [d Hd].
  rewrite Ha, Hb, Hc, Hd. cbn.
  exists a, b, c, d. split; [reflexivity |]. split.
  - exact (to_resized_monotone Hrw Hoh Hx Ha Hc).
  - exact (to_resized_monotone Hrh How Hy Hb Hd).
Qed.

Lemma converted_bounds_stay_ordered_witness :
  exists x1r y1r x2r y2r,
    resized_bounds chart_sizes chart_lead = Some (x1r, y1r, x2r, y2r) /\
    x1r <= x2r /\ y1r <= y2r.
Proof.
  apply (@converted_bounds_stay_ordered chart_sizes chart_lead);
    try reflexivity; vm_compute; discriminate.
Defined.

(** ** Columns the digitizers keep *)

Lemma where_eq_nil (v : Z) (col : list Z) :
  forall i, where_eq v col i = [] <-> existsb (Z.eqb v) col = false.
Proof.
  induction col as [| c rest IH]; intros i; cbn; [tauto |].
  rewrite (Z.eqb_sym v c).
  destruct (c =? v); cbn; [split; discriminate | apply IH].
Qed.

Lemma lead_entry_retained (binary : Mask) (height x : nat) :
  map fst (lead_entry binary height x)
  = if has_foreground binary x
    then [(inject_Z (Z.of_nat x) * time_scale)%Q] else [].
Proof.
  unfold lead_entry, has_foreground.
  destruct (where_eq 255 (column binary x) 0) as [| first rest] eqn:E.
  - apply where_eq_nil in E. now rewrite E.
  - destruct (existsb (Z.eqb 255) (column binary x)) eqn:H; [reflexivity |].
    apply (where_eq_nil 255 (column binary x) 0) in H. congruence.
Qed.

Lemma selected_entry_retained (binary : Mask) (x : nat) :
  map fst (selected_entry binary x)
  = if has_foreground binary x then [Z.of_nat x] else [].
Proof.
  unfold selected_entry, has_foreground.
  destruct (where_eq 255 (column binary x) 0) as [| first rest] eqn:E.
  - apply where_eq_nil in E. now rewrite E.
  - destruct (existsb (Z.eqb 255) (column binary x)) eqn:H; [reflexivity |].
    apply (where_eq_nil 255 (column binary x) 0) in H. congruence.
Qed.

Lemma flat_map_filter {A B C : Type} (f : A -> list B) (g : B -> C)
  (keep : A -> bool) (h : A -> C) (l : list A) :
  (forall a, map g (f a) = if keep a then [h a] else []) ->
  map g (flat_map f l) = map h (filter keep l).
Proof.
  intros Hf. induction l as [| a t IH]; cbn; [reflexivity |].
  rewrite map_app, Hf, IH. now destruct (keep a).
Qed.

Lemma selected_fold (binary : Mask) (cols : list nat) :
  forall sx sy,
    let r := fold_left (digitalize_selected_column binary) cols (sx, sy) in
    fst r = sx ++ map fst (flat_map (selected_entry binary) cols) /\
    snd r = sy ++ map snd (flat_map (selected_entry binary) cols).
Proof.
  induction cols as [| x rest IH]; intros sx sy; cbn.
  - now rewrite !app_nil_r.
  - unfold digitalize_selected_column at 2 4, selected_entry at 1 3.
    destruct (where_eq 255 (column binary x) 0) as [| first more]; cbn.
    + apply IH.
    + destruct (IH (sx ++ [Z.of_nat x]) (sy ++ [np_mean (first :: more)]))
        as [E1 E2].
      cbn in E1, E2. rewrite E1, E2, <- !app_assoc. auto.
Qed.

Lemma digitalize_selected_entries (binary : Mask) :
  digitalize_selected_signal binary
  = (map fst (flat_map (selected_entry binary) (seq 0 (snd (shape binary)))),
     map snd (flat_map (selected_entry binary) (seq 0 (snd (shape binary))))).
Proof.
  unfold digitalize_selected_signal.
  destruct (shape binary) as [height width]. cbn [fst snd].
  destruct (selected_fold binary (seq 0 width) [] []) as [E1 E2].
  destruct (fold_left _ _ _) as [sx sy]. cbn in E1, E2. now subst.
Qed.

Lemma seq_sorted (n : nat) : forall a, StronglySorted lt (seq a n).
Proof.
  induction n as [| n IH]; intros a; cbn; constructor; [apply IH |].
  apply Forall_forall. intros x Hx. apply in_seq in Hx. lia.
Qed.

Lemma filter_sorted {A : Type} (R : A -> A -> Prop) (keep : A -> bool)
  (l : list A) :
  StronglySorted R l -> StronglySorted R (filter keep l).
Proof.
  induction 1 as [| a t Hs IH Hall]; cbn; [constructor |].
  destruct (keep a); [| assumption].
  constructor; [assumption |].
  apply Forall_forall. intros x Hx. apply filter_In in Hx.
  rewrite Forall_forall in Hall. now apply Hall.
Qed.

Lemma map_sorted {A B : Type} (R : A -> A -> Prop) (S : B -> B -> Prop)
  (f : A -> B) (l : list A) :
  (forall a b, R a b -> S (f a) (f b)) ->
  StronglySorted R l -> StronglySorted S (map f l).
Proof.
  intros Hf. induction 1 as [| a t Hs IH Hall]; cbn; constructor;
    [assumption |].
  apply Forall_map. eapply Forall_impl; [| exact Hall]. intros b. apply Hf.
Qed.

(** X10. [digitalize_lead] writes one entry per column that holds a
    foreground pixel and none for the others; the times are the indices
    of those columns scaled by 0.01, so they increase strictly and there
    are at most as many entries as columns. *)
Theorem lead_signal_follows_retained_columns (binary : Mask) :
  map fst (digitalize_lead binary)
  = map (fun x => (inject_Z (Z.of_nat x) * time_scale)%Q)
        (retained_columns binary) /\
  StronglySorted Qlt (map fst (digitalize_lead binary)) /\
  (List.length (digitalize_lead binary) <= snd (shape binary))%nat.
Proof.
  assert (E : map fst (digitalize_lead binary)
              = map (fun x => (inject_Z (Z.of_nat x) * time_scale)%Q)
                    (retained_columns binary)).
  { rewrite digitalize_lead_entries. unfold retained_columns.
    apply flat_map_filter. intros x. apply lead_entry_retained. }
  split; [exact E |]. split.
  - rewrite E. unfold retained_columns.
    apply (@map_sorted _ _ lt Qlt).
    + intros a b Hab. unfold time_scale.
      apply Qmult_lt_compat_r; [reflexivity |].
      rewrite <- Zlt_Qlt. lia.
    + apply filter_sorted, seq_sorted.
  - rewrite <- (length_map fst), E, length_map. unfold retained_columns.
    etransitivity; [apply filter_length_le |]. now rewrite length_seq.
Qed.

(** X11. The digitizer of the dialog keeps exactly the same columns as
    [digitalize_lead], records them as plain column indices, and its two
    output lists have the same length. *)
Theorem selected_signal_keeps_same_columns (binary : Mask) :
  fst (digitalize_selected_signal binary)
  = map Z.of_nat (retained_columns binary) /\
  List.length (snd (digitalize_selected_signal binary))
  = List.length (fst (digitalize_selected_signal binary)) /\
  map fst (digitalize_lead binary)
  = map (fun x => (inject_Z x * time_scale)%Q)
        (fst (digitalize_selected_signal binary)).
Proof.
  rewrite digitalize_selected_entries. cbn [fst snd].
  assert (E : map fst (flat_map (selected_entry binary)
                         (seq 0 (snd (shape binary))))
              = map Z.of_nat (retained_columns binary)).
  { unfold retained_columns. apply flat_map_filter.
    intros x. apply selected_entry_retained. }
  split; [exact E |]. split; [now rewrite !length_map |].
  rewrite E, map_map, digitalize_lead_entries. unfold retained_columns.
  apply flat_map_filter. intros x. apply lead_entry_retained.
Qed.

(** ** Means of the dialog's digitizer *)

Lemma sum_bounds (a b : Z) (l : list Z) :
  Forall (fun k => a <= k <= b) l ->
  Z.of_nat (List.length l) * a <= fold_right Z.add 0 l
  <= Z.of_nat (List.length l) * b.
Proof.
  induction 1 as [| k t Hk _ IH]; cbn [fold_right List.length]; [lia |].
  rewrite Nat2Z.inj_succ. lia.
Qed.

Lemma np_mean_bounds (a b : Z) (l : list Z) :
  l <> [] -> Forall (fun k => a <= k <= b) l ->
  (inject_Z a <= np_mean l)%Q /\ (np_mean l <= inject_Z b)%Q.
Proof.
  intros Hne Hall. pose proof (sum_bounds Hall) as [Hlo Hhi].
  assert (Hn : 0 < Z.of_nat (List.length l))
    by (destruct l; [congruence | cbn; lia]).
  assert (HnQ : (0 < inject_Z (Z.of_nat (List.length l)))%Q)
    by (change 0%Q with (inject_Z 0); rewrite <- Zlt_Qlt; lia).
  unfold np_mean. split.
  - apply Qle_shift_div_l; [assumption |].
    rewrite <- inject_Z_mult, <- Zle_Qle. lia.
  - apply Qle_shift_div_r; [assumption |].
    rewrite <- inject_Z_mult, <- Zle_Qle. lia.
Qed.

(** X12. Every row value the dialog's digitizer records lies between row 0
    and the last row of the mask. *)
Theorem selected_means_within_mask (binary : Mask) :
  Forall (fun m => (0 <= m)%Q /\
                   (m <= inject_Z (Z.of_nat (fst (shape binary)) - 1))%Q)
         (snd (digitalize_selected_signal binary)).
Proof.
  rewrite digitalize_selected_entries. cbn [snd].
  apply Forall_map, Forall_flat_map, Forall_forall. intros x _.
  unfold selected_entry.
  destruct (where_eq 255 (column binary x) 0) as [| first rest] eqn:E;
    constructor; [| constructor].
  cbn [snd]. change 0%Q with (inject_Z 0).
  apply np_mean_bounds; [discriminate |].
  apply Forall_forall. intros k Hk. rewrite <- E in Hk.
  apply where_eq_lower in Hk. rewrite column_length in Hk. lia.
Qed.

(** ** A solid run of foreground rows *)

Lemma sorted_ext (l1 : list Z) :
  forall l2,
    StronglySorted Z.lt l1 -> StronglySorted Z.lt l2 ->
    (forall k, In k l1 <-> In k l2) -> l1 = l2.
Proof.
  induction l1 as [| a t IH]; intros [| b u] H1 H2 Hin.
  - reflexivity.
  - destruct (proj2 (Hin b) (or_introl eq_refl)).
  - destruct (proj1 (Hin a) (or_introl eq_refl)).
  - apply StronglySorted_inv in H1. destruct H1 as [Ht Ha].
    apply StronglySorted_inv in H2. destruct H2 as [Hu Hb].
    rewrite Forall_forall in Ha, Hb.
    assert (a = b).
    { destruct (proj1 (Hin a) (or_introl eq_refl)) as [E | Hau]; [auto |].
      destruct (proj2 (Hin b) (or_introl eq_refl)) as [E | Hbt]; [auto |].
      specialize (Ha b Hbt). specialize (Hb a Hau). lia. }
    subst b. f_equal. apply IH; try assumption.
    intros k. split; intros Hk.
    + destruct (proj1 (Hin k) (or_intror Hk)) as [E | H]; [| assumption].
      specialize (Ha k Hk). lia.
    + destruct (proj2 (Hin k) (or_intror Hk)) as [E | H]; [| assumption].
      specialize (Hb k Hk). lia.
Qed.

Lemma row_run_In (n : nat) :
  forall a k, In k (row_run a n) <-> a <= k < a + Z.of_nat n.
Proof.
  induction n as [| n IH]; intros a k; cbn [row_run In]; [lia |].
  rewrite IH. lia.
Qed.

Lemma row_run_sorted (n : nat) :
  forall a, StronglySorted Z.lt (row_run a n).
Proof.
  induction n as [| n IH]; intros a; cbn; constructor; [apply IH |].
  apply Forall_forall. intros k Hk. apply row_run_In in Hk. lia.
Qed.

Lemma row_run_sum (n : nat) :
  forall a,
    2 * fold_right Z.add 0 (row_run a n)
    = Z.of_nat n * (2 * a + Z.of_nat n - 1).
Proof.
  induction n as [| n IH]; intros a; cbn [row_run fold_right]; [lia |].
  rewrite Z.mul_add_distr_l, IH, Nat2Z.inj_succ. lia.
Qed.

Lemma row_run_length (n : nat) : forall a, List.length (row_run a n) = n.
Proof. induction n as [| n IH]; intros a; cbn; [| rewrite IH]; reflexivity. Qed.

Lemma row_run_last (n : nat) :
  forall a, last (row_run (a + 1) n) a = a + Z.of_nat n.
Proof.
  induction n as [| n IH]; intros a; [cbn; lia |].
  cbn [row_run]. rewrite last_cons, (IH (a + 1)). lia.
Qed.

(** X13. When the foreground rows of a column form one solid run of [n]
    rows starting at row [a], the dialog's digitizer records the exact
    midpoint (2a + n - 1) / 2 of the run, and [digitalize_lead] uses the
    floor of that same midpoint. *)
Theorem solid_run_midpoint (binary : Mask) (x : nat) (a : Z) (n : nat) :
  (0 < n)%nat ->
  (forall k, foreground (column binary x) k <-> a <= k < a + Z.of_nat n) ->
  exists m : Q,
    (m == inject_Z (2 * a + Z.of_nat n - 1) / 2)%Q /\
    (forall signal,
       digitalize_selected_column binary signal x
       = (fst signal ++ [Z.of_nat x], snd signal ++ [m])) /\
    (forall height signal,
       digitalize_lead_column binary height signal x
       = (fst signal ++ [(inject_Z (Z.of_nat x) * time_scale)%Q],
          snd signal
          ++ [(max_amplitude - (max_amplitude - min_amplitude)
                 * (inject_Z (Qfloor m) / inject_Z (Z.of_nat height)))%Q])).
Proof.
  intros Hn Hfg.
  assert (E : where_eq 255 (column binary x) 0 = row_run a n).
  { apply sorted_ext; [apply where_eq_sorted | apply row_run_sorted |].
    intros k. now rewrite where_eq_foreground, Hfg, row_run_In. }
  destruct n as [| n']; [lia |].
  exists (np_mean (row_run a (S n'))).
  assert (Hm : (np_mean (row_run a (S n'))
                == inject_Z (2 * a + Z.of_nat (S n') - 1) / 2)%Q).
  { unfold np_mean. rewrite row_run_length.
    pose proof (row_run_sum (S n') a) as Hsum.
    set (total := fold_right Z.add 0 (row_run a (S n'))) in *.
    assert (HS : (inject_Z total * 2
                  == inject_Z (Z.of_nat (S n'))
                     * inject_Z (2 * a + Z.of_nat (S n') - 1))%Q).
    { rewrite <- inject_Z_mult, <- Hsum.
      change 2%Q with (inject_Z 2). rewrite <- inject_Z_mult.
      now rewrite Z.mul_comm. }
    assert (Hnz : ~ (inject_Z (Z.of_nat (S n')) == 0)%Q).
    { change 0%Q with (inject_Z 0). rewrite inject_Z_injective. lia. }
    apply (Qmult_inj_r _ _ (2 * inject_Z (Z.of_nat (S n')))).
    - intros H. apply Hnz.
      apply (Qmult_inj_l _ _ 2); [discriminate |]. now rewrite Qmult_0_r.
    - transitivity (inject_Z total * 2)%Q; [field; exact Hnz |].
      rewrite HS. field. }
  split; [exact Hm |]. split.
  - intros signal. unfold digitalize_selected_column. rewrite E. reflexivity.
  - intros height signal. unfold digitalize_lead_column. rewrite E.
    cbn [row_run]. unfold middle_pixel.
    rewrite (row_run_last n' a).
    replace (Qfloor (np_mean (a :: row_run (a + 1) n')))
      with ((a + (a + Z.of_nat n')) / 2); [reflexivity |].
    change (a :: row_run (a + 1) n') with (row_run a (S n')).
    rewrite (Qfloor_comp _ _ Hm).
    change (inject_Z (2 * a + Z.of_nat (S n') - 1) / 2)%Q
      with (inject_Z (2 * a + Z.of_nat (S n') - 1) * / inject_Z 2)%Q.
    unfold Qfloor, Qmult, Qinv, inject_Z; cbn [Qnum Qden].
    rewrite Z.mul_1_r. f_equal. lia.
Qed.

Lemma solid_run_midpoint_witness :
  exists m : Q,
    (m == inject_Z (2 * 0 + Z.of_nat 2 - 1) / 2)%Q /\
    (forall signal,
       digitalize_selected_column [[255]; [255]] signal 0
       = (fst signal ++ [Z.of_nat 0], snd signal ++ [m])) /\
    (forall height signal,
       digitalize_lead_column [[255]; [255]] height signal 0
       = (fst signal ++ [(inject_Z (Z.of_nat 0) * time_scale)%Q],
          snd signal
          ++ [(max_amplitude - (max_amplitude - min_amplitude)
                 * (inject_Z (Qfloor m) / inject_Z (Z.of_nat height)))%Q])).
Proof.
  apply (@solid_run_midpoint [[255]; [255]] 0%nat 0 2%nat); [lia |].
  intros k. unfold foreground. split.
  - intros [H0 H]. split; [assumption |].
    destruct (Z.to_nat k) as [| [| j]] eqn:E; try lia.
    cbn in H. destruct j; discriminate.
  - intros Hk. split; [lia |].
    assert (Hc : k = 0 \/ k = 1) by lia.
    destruct Hc as [-> | ->]; reflexivity.
Defined.

(** ** From the colour image to the binary mask *)

Lemma at2d_threshold (gray : Mask) (thresh maxval : Z) (i j : nat) (v : Z) :
  at2d gray i j = Some v ->
  at2d (threshold_binary_inv gray thresh maxval) i j
  = Some (if thresh <? v then 0 else maxval).
Proof.
  intros H. unfold threshold_binary_inv.
  exact (at2d_map2d (fun w => if thresh <? w then 0 else maxval) _ _ _ H).
Qed.

Lemma remove_background_pixel (img hsv : Image) (i j : nat) (p h : Pixel) :
  at2d img i j = Some p -> at2d hsv i j = Some h ->
  at2d (remove_background img hsv) i j
  = Some (if in_bounds (0, 0, 0) (180, 255, 220) h then black else white).
Proof.
  intros Hp Hh.
  pose proof (at2d_inRange _ (0, 0, 0) (180, 255, 220) _ _ Hh) as Hm.
  unfold remove_background, lower_black, upper_black.
  pose proof (at2d_assign_where _ _ 255 0 _ _
                (at2d_bitwise_and _ _ _ _ _ Hp Hp Hm) Hm) as Hblack.
  assert (Hwhite : at2d (full_like img 255) i j = Some white)
    by (unfold full_like;
        exact (at2d_map2d (fun _ : Pixel => (255, 255, 255)) _ _ _ Hp)).
  assert (Hinv : at2d (bitwise_not
                         (inRange hsv (0, 0, 0) (180, 255, 220))) i j
                 = Some (Z.lxor (if in_bounds (0, 0, 0) (180, 255, 220) h
                                 then 255 else 0) 255))
    by (unfold bitwise_not;
        exact (at2d_map2d (fun v => Z.lxor v 255) _ _ _ Hm)).
  pose proof (at2d_bitwise_and _ _ _ _ _ Hwhite Hwhite Hinv) as Hrest.
  unfold cv_add. erewrite at2d_zip2d by eassumption.
  destruct (in_bounds (0, 0, 0) (180, 255, 220) h); reflexivity.
Qed.

Lemma selected_result_pixel (img hsv : Image) (i j : nat) (p h : Pixel) :
  at2d img i j = Some p -> at2d hsv i j = Some h ->
  at2d (digitalize_selected_result img hsv) i j
  = Some (if in_bounds (0, 0, 0) (180, 255, 220) h then p else white).
Proof.
  intros Hp Hh.
  pose proof (at2d_inRange _ (0, 0, 0) (180, 255, 220) _ _ Hh) as Hm.
  unfold digitalize_selected_result.
  rewrite (at2d_assign_where _ _ 0 255 _ _
             (at2d_bitwise_and _ _ _ _ _ Hp Hp Hm) Hm).
  rewrite pixel_and_diag.
  destruct (in_bounds (0, 0, 0) (180, 255, 220) h); reflexivity.
Qed.

(** X14. Once the background has been removed, the binary image
    [digitalize_lead] works on marks as foreground exactly the pixels whose
    HSV value was inside the bounds: it is the [inRange] mask again.  This
    holds for any grayscale conversion that sends black to 0 and white to
    255. *)
Theorem lead_mask_after_background_removal
  (gray_of : Pixel -> Z) (img hsv : Image) (i j : nat) (p h : Pixel) :
  gray_of black = 0 -> gray_of white = 255 ->
  at2d img i j = Some p -> at2d hsv i j = Some h ->
  at2d (lead_binary gray_of (remove_background img hsv)) i j
  = Some (if in_bounds (0, 0, 0) (180, 255, 220) h then 255 else 0) /\
  at2d (lead_binary gray_of (remove_background img hsv)) i j
  = at2d (inRange hsv lower_black upper_black) i j.
Proof.
  intros Hb Hw Hp Hh.
  assert (E : at2d (lead_binary gray_of (remove_background img hsv)) i j
              = Some (if in_bounds (0, 0, 0) (180, 255, 220) h
                      then 255 else 0)).
  { unfold lead_binary.
    rewrite (at2d_threshold _ 1 255 _ _
               (at2d_map2d gray_of _ _ _
                  (remove_background_pixel _ _ _ _ Hp Hh))).
    destruct (in_bounds (0, 0, 0) (180, 255, 220) h);
      [rewrite Hb | rewrite Hw]; reflexivity. }
  split; [exact E |].
  rewrite E. symmetry. exact (at2d_inRange _ _ _ _ _ Hh).
Qed.

Lemma lead_mask_after_background_removal_witness :
  at2d (lead_binary (fun '(b, g, r) => (b + g + r) / 3)
          (remove_background gray_image gray_hsv)) 0 0
  = Some (if in_bounds (0, 0, 0) (180, 255, 220) (0, 0, 200)
          then 255 else 0) /\
  at2d (lead_binary (fun '(b, g, r) => (b + g + r) / 3)
          (remove_background gray_image gray_hsv)) 0 0
  = at2d (inRange gray_hsv lower_black upper_black) 0 0.
Proof.
  apply (@lead_mask_after_background_removal
           (fun '(b, g, r) => (b + g + r) / 3) gray_image gray_hsv
           0%nat 0%nat (200, 200, 200) (0, 0, 200));
    reflexivity.
Defined.

(** X15. The dialog's digitizer marks a pixel as foreground exactly when
    its HSV value is inside the bounds and its own gray level is at most
    127: a pixel inside the bounds but lighter than that is background
    there, while after [remove_background] it is foreground. *)
Theorem selected_mask_needs_dark_pixel
  (gray_of : Pixel -> Z) (img hsv : Image) (i j : nat) (p h : Pixel) :
  gray_of white = 255 ->
  at2d img i j = Some p -> at2d hsv i j = Some h ->
  at2d (selected_binary gray_of img hsv) i j
  = Some (if in_bounds (0, 0, 0) (180, 255, 220) h && (gray_of p <=? 127)
          then 255 else 0).
Proof.
  intros Hw Hp Hh. unfold selected_binary.
  rewrite (at2d_threshold _ 127 255 _ _
             (at2d_map2d gray_of _ _ _
                (selected_result_pixel _ _ _ _ Hp Hh))).
  destruct (in_bounds (0, 0, 0) (180, 255, 220) h); cbn [andb].
  - destruct (gray_of p <=? 127) eqn:E.
    + apply Z.leb_le in E.
      destruct (127 <? gray_of p) eqn:F; [apply Z.ltb_lt in F; lia |].
      reflexivity.
    + apply Z.leb_gt in E.
      destruct (127 <? gray_of p) eqn:F; [reflexivity |].
      apply Z.ltb_ge in F. lia.
  - rewrite Hw. reflexivity.
Qed.

Lemma selected_mask_needs_dark_pixel_witness :
  at2d (selected_binary (fun '(b, g, r) => (b + g + r) / 3)
          gray_image gray_hsv) 0 0
  = Some 0.
Proof.
  exact (@selected_mask_needs_dark_pixel
           (fun '(b, g, r) => (b + g + r) / 3) gray_image gray_hsv
           0%nat 0%nat (200, 200, 200) (0, 0, 200)
           eq_refl eq_refl eq_refl).
Defined.

(** ** The whole of [save_all_areas] *)

Lemma save_area_writes_fresh
  (can_open : string -> bool) (sz : Sizes) (img : Image) (d : string)
  (fuel : nat) (fs fs' : FileSystem) (rect : Rect) :
  save_area can_open sz img d fuel fs rect = Some fs' ->
  exists f sub,
    path_exists fs f = false /\
    fs' = if can_open f then (f, ImageFile sub) :: fs else fs.
Proof.
  unfold save_area.
  destruct (sub_image sz img rect) as [sub |]; cbn [bind]; [| discriminate].
  destruct (free_area_filename fs d (r_name rect) fuel _ 1)
    as [f |] eqn:Ef; cbn [bind]; [| discriminate].
  apply free_area_filename_free in Ef.
  unfold imwrite. destruct (image_empty sub); [discriminate |].
  intros H. exists f, sub. split; [exact Ef |].
  destruct (can_open f); now injection H.
Qed.

Lemma In_path_exists (fs : FileSystem) (p : string) :
  In p (map fst fs) -> path_exists fs p = true.
Proof.
  induction fs as [| [f c] t IH]; cbn [map In fst]; [tauto |].
  rewrite path_exists_cons. intros [-> | H].
  - now rewrite String.eqb_refl.
  - rewrite (IH H). apply orb_true_r.
Qed.

Lemma save_areas_keeps_files
  (can_open : string -> bool) (sz : Sizes) (img : Image) (d : string)
  (fuel : nat) (rects : list Rect) :
  forall fs p c,
    read_file fs p = Some c ->
    read_file (fst (save_areas can_open sz img d fuel fs rects)) p = Some c.
Proof.
  induction rects as [| rect rest IH]; intros fs p c Hp; cbn [save_areas];
    [exact Hp |].
  destruct (save_area can_open sz img d fuel fs rect)
    as [fs' |] eqn:E; [| exact Hp].
  apply IH.
  destruct (save_area_writes_fresh _ _ _ _ _ _ _ E) as (f & sub & Hf & ->).
  destruct (can_open f); [| exact Hp].
  rewrite read_file_cons. destruct (f =? p)%string eqn:Efp; [| exact Hp].
  apply String.eqb_eq in Efp. subst p.
  unfold path_exists in Hf. now rewrite Hp in Hf.
Qed.

(** X16. Whatever its outcome, [save_all_areas] leaves every file that
    existed before with the content it had, also when an exception stops
    the loop half-way. *)
Theorem save_all_areas_keeps_existing_files
  (can_open : string -> bool) (sz : Sizes) (img : option Image) (d : string)
  (fuel : nat)
  (fs : FileSystem) (rects : list Rect) (p : string) (c : FileContent) :
  read_file fs p = Some c ->
  read_file (fst (save_all_areas can_open sz img d fuel fs rects)) p = Some c.
Proof.
  intros Hp. unfold save_all_areas.
  destruct rects as [| r rest]; [exact Hp |].
  destruct img as [im |]; [| exact Hp].
  destruct (d =? EmptyString)%string; [exact Hp |].
  pose proof (save_areas_keeps_files can_open sz im d fuel
                (r :: rest) fs p Hp) as H.
  destruct (save_areas can_open sz im d fuel fs (r :: rest)) as [fs' finished].
  exact H.
Qed.

Lemma save_all_areas_keeps_existing_files_witness :
  read_file
    (fst (save_all_areas (fun _ => true) chart_sizes (Some chart) "out" 3
            [("out/II.png"%string, TextFile "kept")]
            [chart_lead; chart_lead]))
    "out/II.png"
  = Some (TextFile "kept").
Proof.
  exact (@save_all_areas_keeps_existing_files (fun _ => true)
           chart_sizes (Some chart) "out"
           3 [("out/II.png"%string, TextFile "kept")]
           [chart_lead; chart_lead] "out/II.png" (TextFile "kept") eq_refl).
Defined.

Lemma save_areas_finished (can_open : string -> bool) (sz : Sizes)
  (img : Image) (d : string) (fuel : nat) (rects : list Rect) :
  forall fs,
    snd (save_areas can_open sz img d fuel fs rects) = true ->
    (List.length (fst (save_areas can_open sz img d fuel fs rects))
     <= List.length fs + List.length rects)%nat /\
    ((forall p, can_open p = true) ->
     List.length (fst (save_areas can_open sz img d fuel fs rects))
     = (List.length fs + List.length rects)%nat) /\
    ((forall p, can_open p = false) ->
     fst (save_areas can_open sz img d fuel fs rects) = fs) /\
    (NoDup (map fst fs) ->
     NoDup (map fst (fst (save_areas can_open sz img d fuel fs rects)))).
Proof.
  induction rects as [| rect rest IH]; intros fs; cbn [save_areas].
  - intros _. cbn. repeat split; auto; lia.
  - destruct (save_area can_open sz img d fuel fs rect) as [fs' |] eqn:E;
      [| cbn; discriminate].
    intros Hfin. destruct (IH fs' Hfin) as (Hle & Hlen & Hnone & Hnd).
    destruct (save_area_writes_fresh _ _ _ _ _ _ _ E) as (f & sub & Hf & Hfs').
    repeat split.
    + assert (List.length fs' <= S (List.length fs))%nat
        by (rewrite Hfs'; destruct (can_open f); cbn [List.length]; lia).
      cbn [List.length]. lia.
    + intros Hopen. rewrite (Hlen Hopen).
      assert (List.length fs' = S (List.length fs))
        by (rewrite Hfs', Hopen; reflexivity).
      cbn [List.length]. lia.
    + intros Hshut. rewrite (Hnone Hshut), Hfs', Hshut. reflexivity.
    + intros Hfs. apply Hnd. rewrite Hfs'.
      destruct (can_open f); [| assumption].
      cbn. constructor; [| assumption].
      intros Hin. apply In_path_exists in Hin. congruence.
Qed.

(** X17. When [save_all_areas] reports success, no file name is used
    twice and the directory has grown by at most one file for each
    rectangle: by exactly one for each when every path can be opened for
    writing, by none at all when no path can be, the result of
    [cv2.imwrite] being discarded. *)
Theorem all_saved_means_one_file_each
  (can_open : string -> bool) (sz : Sizes) (img : option Image) (d : string)
  (fuel : nat) (fs : FileSystem) (rects : list Rect) :
  snd (save_all_areas can_open sz img d fuel fs rects) = AllSaved ->
  (List.length (fst (save_all_areas can_open sz img d fuel fs rects))
   <= List.length fs + List.length rects)%nat /\
  ((forall p, can_open p = true) ->
   List.length (fst (save_all_areas can_open sz img d fuel fs rects))
   = (List.length fs + List.length rects)%nat) /\
  ((forall p, can_open p = false) ->
   fst (save_all_areas can_open sz img d fuel fs rects) = fs) /\
  (NoDup (map fst fs) ->
   NoDup (map fst (fst (save_all_areas can_open sz img d fuel fs rects)))).
Proof.
  unfold save_all_areas.
  destruct rects as [| r rest]; [discriminate |].
  destruct img as [im |]; [| discriminate].
  destruct (d =? EmptyString)%string; [discriminate |].
  pose proof (save_areas_finished can_open sz im d fuel (r :: rest) fs) as H.
  destruct (save_areas can_open sz im d fuel fs (r :: rest))
    as [fs' finished].
  cbn [fst snd] in *. destruct finished; [| discriminate].
  intros _. now apply H.
Qed.

Lemma all_saved_means_one_file_each_witness :
  (List.length (fst areas_saved_twice) <= 0 + 2)%nat /\
  ((forall p : string, (fun _ => true) p = true) ->
   List.length (fst areas_saved_twice) = (0 + 2)%nat) /\
  ((forall p : string, (fun _ => true) p = false) ->
   fst areas_saved_twice = []) /\
  (NoDup (map fst (@nil (string * FileContent))) ->
   NoDup (map fst (fst areas_saved_twice))).
Proof.
  apply (@all_saved_means_one_file_each (fun _ => true) chart_sizes
           (Some chart) "out" 3 [] [chart_lead; chart_lead]).
  vm_compute. reflexivity.
Defined.





(** ** Rectangles without area *)

Lemma py_int_comp (p q : Q) : (p == q)%Q -> py_int p = py_int q.
Proof.
  intros E. apply Z.le_antisymm; apply py_int_monotone; rewrite E;
    apply Qle_refl.
Qed.

Lemma to_resized_comp (c1 c2 : Q) (resized original : Z) :
  (c1 == c2)%Q -> to_resized c1 resized original
                  = to_resized c2 resized original.
Proof.
  intros E. unfold to_resized. destruct (original =? 0); [reflexivity |].
  f_equal. apply py_int_comp. now rewrite E.
Qed.

Lemma slice_same_bound {A : Type} (l : list A) (a : Z) : PyList.slice l a a = [].
Proof. unfold PyList.slice. now rewrite Nat.sub_diag. Qed.

Lemma crop_without_area (img : Image) (x1 y1 x2 y2 : Z) :
  x1 = x2 \/ y1 = y2 -> image_empty (crop img x1 y1 x2 y2) = true.
Proof.
  unfold crop. intros [-> | ->].
  - destruct (PyList.slice img y1 y2) as [| row rows]; [reflexivity |].
    cbn. now rewrite slice_same_bound.
  - now rewrite slice_same_bound.
Qed.

Lemma save_area_without_area
  (can_open : string -> bool) (sz : Sizes) (img : Image) (d : string)
  (fuel : nat) (fs : FileSystem) (r : Rect) :
  (r_x1 r == r_x2 r)%Q \/ (r_y1 r == r_y2 r)%Q ->
  save_area can_open sz img d fuel fs r = None.
Proof.
  intros Hdeg. unfold save_area, sub_image, resized_bounds.
  destruct (x_resized sz (r_x1 r)) as [a |] eqn:Ea; [| reflexivity].
  destruct (y_resized sz (r_y1 r)) as [b |] eqn:Eb; [| reflexivity].
  destruct (x_resized sz (r_x2 r)) as [c |] eqn:Ec; [| reflexivity].
  destruct (y_resized sz (r_y2 r)) as [e |] eqn:Ee; [| reflexivity].
  cbn [bind].
  assert (Hempty : image_empty (crop img a b c e) = true).
  { apply crop_without_area. unfold x_resized, y_resized in *.
    destruct Hdeg as [Hx | Hy].
    - left. rewrite (to_resized_comp _ _ Hx) in Ea. congruence.
    - right. rewrite (to_resized_comp _ _ Hy) in Eb. congruence. }
  destruct (free_area_filename fs d (r_name r) fuel _ 1); [| reflexivity].
  cbn [bind]. unfold imwrite. now rewrite Hempty.
Qed.

Lemma save_areas_fail
  (can_open : string -> bool) (sz : Sizes) (img : Image) (d : string)
  (fuel : nat)
  (r : Rect) (rects : list Rect) :
  forall fs,
    In r rects ->
    (forall fs0, save_area can_open sz img d fuel fs0 r = None) ->
    snd (save_areas can_open sz img d fuel fs rects) = false.
Proof.
  induction rects as [| rect rest IH]; intros fs Hin Hfail;
    [destruct Hin |].
  cbn [save_areas].
  destruct (save_area can_open sz img d fuel fs rect) as [fs' |] eqn:E;
    [| reflexivity].
  destruct Hin as [-> | Hin]; [rewrite Hfail in E; discriminate |].
  apply IH; auto.
Qed.

(** X21. A rectangle without area, such as one made by a click without a
    drag, cannot be exported: whatever else is in the list, with such a
    rectangle present [save_all_areas] ends in its exception handler. *)
Theorem rectangle_without_area_fails_export
  (can_open : string -> bool) (sz : Sizes) (img : Image) (d : string)
  (fuel : nat) (fs : FileSystem)
  (rects : list Rect) (r : Rect) :
  d <> EmptyString -> In r rects ->
  (r_x1 r == r_x2 r)%Q \/ (r_y1 r == r_y2 r)%Q ->
  snd (save_all_areas can_open sz (Some img) d fuel fs rects) = SaveFailed.
Proof.
  intros Hd Hin Hdeg. unfold save_all_areas.
  destruct rects as [| r0 rest]; [destruct Hin |].
  destruct (d =? EmptyString)%string eqn:E;
    [apply String.eqb_eq in E; contradiction |].
  assert (H : snd (save_areas can_open sz img d fuel fs (r0 :: rest)) = false).
  { apply (@save_areas_fail can_open sz img d fuel r); auto.
    intros fs0. now apply save_area_without_area. }
  destruct (save_areas can_open sz img d fuel fs (r0 :: rest))
    as [fs' finished].
  cbn [snd] in *. now rewrite H.
Qed.

Lemma rectangle_without_area_fails_export_witness :
  snd (save_all_areas (fun _ => true) chart_sizes (Some chart) "out" 3 []
         [chart_lead; mkRect 50 60 50 60 "dot"]) = SaveFailed.
Proof.
  apply (@rectangle_without_area_fails_export (fun _ => true)
           chart_sizes chart "out" 3 []
           [chart_lead; mkRect 50 60 50 60 "dot"] (mkRect 50 60 50 60 "dot")).
  - discriminate.
  - right. left. reflexivity.
  - left. reflexivity.
Defined.

(** ** Validations in the observation dialog *)

Lemma contains_In (x : string) (l : list string) :
  PyList.contains String.eqb x l = true <-> In x l.
Proof.
  unfold PyList.contains. rewrite existsb_exists. split.
  - intros (y & Hy & E). apply String.eqb_eq in E. now subst.
  - intros H. exists x. split; [assumption | apply String.eqb_refl].
Qed.

Lemma dict_has_In (d : Dict) (key : string) :
  dict_has d key = true <-> In key (map fst d).
Proof.
  unfold dict_has. rewrite existsb_exists, in_map_iff. split.
  - intros (e & He & E). apply String.eqb_eq in E. eauto.
  - intros (e & E & He). exists e. split; [assumption |].
    now apply String.eqb_eq.
Qed.

Lemma remove_present (x : string) (l : list string) :
  In x l -> exists l', PyList.remove String.eqb x l = Some l'.
Proof.
  induction l as [| y t IH]; intros H; [destruct H |]. cbn.
  destruct (y =? x)%string eqn:E; [eauto |].
  destruct H as [-> | H]; [rewrite String.eqb_refl in E; discriminate |].
  destruct (IH H) as [t' ->]. cbn. eauto.
Qed.

Lemma dict_get_app (d : Dict) (key k : string) (v : ObservationData) :
  dict_get (d ++ [(key, v)]) k
  = match dict_get d k with
    | Some w => Some w
    | None => if (key =? k)%string then Some v else None
    end.
Proof.
  unfold dict_get. induction d as [| [a w] t IH]; cbn.
  - now destruct (key =? k)%string.
  - destruct (a =? k)%string; [reflexivity | exact IH].
Qed.

Lemma dict_get_None (d : Dict) (k : string) :
  dict_get d k = None <-> dict_has d k = false.
Proof.
  unfold dict_get, dict_has. induction d as [| [a w] t IH]; cbn; [tauto |].
  destruct (a =? k)%string; cbn; [split; discriminate | exact IH].
Qed.

(** What one validation does to a dialog whose dictionary and selection
    list agree. *)
Lemma on_validate_spec (name cls text : string) (d : Dialog) :
  dialog_ok d ->
  exists d',
    on_validate name cls text d = Some d' /\
    dialog_ok d' /\
    (forall k, In k (valid_selections d') <->
               k = name \/ In k (valid_selections d)) /\
    (forall k v, dict_get (observations_dict d) k = Some v ->
                 dict_get (observations_dict d') k = Some v) /\
    (~ In name (valid_selections d) ->
     dict_get (observations_dict d') name = Some (mkObservation text cls)).
Proof.
  intros [Hkeys Hnd]. unfold on_validate.
  assert (Hsame : dict_has (observations_dict d) name
                  = PyList.contains String.eqb name (valid_selections d)).
  { apply eq_true_iff_eq. now rewrite dict_has_In, contains_In, Hkeys. }
  rewrite Hsame.
  set (valid := if PyList.contains String.eqb name (valid_selections d)
                then valid_selections d else valid_selections d ++ [name]).
  set (dict := if PyList.contains String.eqb name (valid_selections d)
               then observations_dict d
               else observations_dict d
                    ++ [(name, mkObservation text cls)]).
  assert (Hok : map fst dict = valid /\ NoDup valid).
  { unfold dict, valid.
    destruct (PyList.contains String.eqb name (valid_selections d)) eqn:E.
    - auto.
    - split; [rewrite map_app, Hkeys; reflexivity |].
      apply NoDup_app; [assumption | repeat constructor; intros [] |].
      intros k Hk [<- | []].
      apply contains_In in Hk. congruence. }
  assert (Hin : forall k, In k valid <-> k = name \/ In k (valid_selections d)).
  { intros k. unfold valid.
    destruct (PyList.contains String.eqb name (valid_selections d)) eqn:E.
    - apply contains_In in E. split; [auto |]. intros [-> | H]; assumption.
    - rewrite in_app_iff. cbn. intuition congruence. }
  assert (Hkeep : forall k v, dict_get (observations_dict d) k = Some v ->
                              dict_get dict k = Some v).
  { intros k v Hk. unfold dict.
    destruct (PyList.contains String.eqb name (valid_selections d));
      [assumption |].
    now rewrite dict_get_app, Hk. }
  assert (Hnew : ~ In name (valid_selections d) ->
                 dict_get dict name = Some (mkObservation text cls)).
  { intros Hnot. unfold dict.
    destruct (PyList.contains String.eqb name (valid_selections d)) eqn:E;
      [apply contains_In in E; contradiction |].
    rewrite dict_get_app.
    assert (Hnone : dict_get (observations_dict d) name = None).
    { apply dict_get_None. exact Hsame. }
    now rewrite Hnone, String.eqb_refl. }
  destruct (PyList.contains String.eqb name (remaining_options d)) eqn:Er.
  - apply contains_In, remove_present in Er. destruct Er as [l' ->].
    cbn [bind]. eexists. split; [reflexivity |]. cbn. auto.
  - eexists. split; [reflexivity |]. cbn. auto.
Qed.

Lemma validate_all_spec (inputs : list (string * string * string)) :
  forall d, dialog_ok d ->
  exists d',
    validate_all inputs d = Some d' /\
    dialog_ok d' /\
    (forall k, In k (valid_selections d') <->
               In k (map (fun i => fst (fst i)) inputs)
               \/ In k (valid_selections d)) /\
    (forall k v, dict_get (observations_dict d) k = Some v ->
                 dict_get (observations_dict d') k = Some v).
Proof.
  induction inputs as [| [[name cls] text] rest IH]; intros d Hd.
  - exists d. cbn. intuition.
  - destruct (on_validate_spec name cls text Hd)
      as (d1 & Hv & Hd1 & Hin1 & Hkeep1 & _).
    destruct (IH d1 Hd1) as (d' & Hrest & Hd' & Hin & Hkeep).
    exists d'. cbn [validate_all]. rewrite Hv. cbn [bind].
    split; [assumption |]. split; [assumption |]. split.
    + intros k. rewrite Hin, Hin1. cbn. intuition.
    + auto.
Qed.

Lemma init_dialog_ok (rects : list Rect) : dialog_ok (init_dialog rects).
Proof. split; cbn; [reflexivity | constructor]. Qed.


(** X20. The first validation of a name decides what is stored for it:
    the observation and class entered then are kept, however often the
    name is validated again with other values. *)
Theorem first_validation_wins
  (rects : list Rect) (before after : list (string * string * string))
  (name cls text : string) (d : Dialog) :
  ~ In name (map (fun i => fst (fst i)) before) ->
  validate_all (before ++ (name, cls, text) :: after) (init_dialog rects)
  = Some d ->
  dict_get (observations_dict d) name = Some (mkObservation text cls).
Proof.
  intros Hfresh.
  assert (Hsplit : forall l1 l2 d0,
            validate_all (l1 ++ l2) d0
            = d1 <- validate_all l1 d0 ;; validate_all l2 d1).
  { induction l1 as [| [[n c] t] l1 IH]; intros l2 d0; cbn; [reflexivity |].
    destruct (on_validate n c t d0); cbn; [apply IH | reflexivity]. }
  rewrite Hsplit.
  destruct (validate_all_spec before (init_dialog_ok rects))
    as (d1 & -> & Hd1 & Hin1 & _).
  cbn [bind validate_all].
  destruct (on_validate_spec name cls text Hd1)
    as (d2 & -> & Hd2 & _ & _ & Hnew).
  cbn [bind].
  destruct (validate_all_spec after Hd2) as (d3 & -> & _ & _ & Hkeep).
  intros [= <-]. apply Hkeep, Hnew.
  intros H. apply Hin1 in H. destruct H as [H | []]. contradiction.
Qed.

Lemma first_validation_wins_witness :
  exists d,
    validate_all
      ([("V1"%string, "Class A"%string, "first note"%string)]
       ++ ("II"%string, "Class B"%string, "normal"%string)
          :: [("II"%string, "Class D"%string, "revised"%string)])
      (init_dialog [lead_II]) = Some d /\
    dict_get (observations_dict d) "II"
    = Some (mkObservation "normal" "Class B").
Proof.
  eexists. split; [reflexivity |].
  apply (@first_validation_wins [lead_II]
           [("V1"%string, "Class A"%string, "first note"%string)]
           [("II"%string, "Class D"%string, "revised"%string)]
           "II" "Class B" "normal").
  - cbn. intros [H | []]. discriminate.
  - reflexivity.
Defined.
